(** * LLM Writing Assistant: the word-level diff engine and the assist gateway

    A shallow embedding of [frontend/frontend.py] (tokenizer, aligner
    call, diff classifier, change summary and comparison report) and of
    [backend/backend.py] (the [/assist] handler and [query_ollama]),
    together with the properties stated for them.

    Conventions.
    - A Python [str] is a list of Unicode code points ([N]).
    - Python ints used as indices are never negative in the embedded code;
      they are modelled by [nat], and every subtraction is shown exact.
    - A computation that can raise [IndexError], or that is run with a
      gas bound, returns an [option]; totality is proved separately. *)

From stdpp Require Import base option list strings pretty gmap sorting.
From Stdlib Require Import NArith Lia.

Open Scope nat_scope.
Open Scope list_scope.

(** ** Python strings *)

Definition char := N.
Definition str := list char.

(** An ASCII literal as a Python string. *)
Definition py (s : string) : str :=
  map Ascii.N_of_ascii (String.list_ascii_of_string s).

(** [Py_UNICODE_ISSPACE]: the code points for which [str.isspace] holds;
    the class [\s] of [re] on [str] patterns and the set removed by
    [str.strip()] are both this set. *)
Definition Py_UNICODE_ISSPACE (c : char) : bool :=
  ((9 <=? c) && (c <=? 13)
   || (28 <=? c) && (c <=? 32)
   || (c =? 133) || (c =? 160) || (c =? 5760)
   || (8192 <=? c) && (c <=? 8202)
   || (c =? 8232) || (c =? 8233) || (c =? 8239) || (c =? 8287)
   || (c =? 12288))%N.

(** ** The tokenizer: [re.findall(r'\S+|\s+', s)] *)

Module Tokenizer.

(** Greedy scan of the longest prefix whose characters satisfy [cls],
    returning the prefix and what follows it. *)
Fixpoint span (cls : char -> bool) (s : str) : str * str :=
  match s with
  | [] => ([], [])
  | c :: s' =>
      if cls c then let '(m, r) := span cls s' in (c :: m, r)
      else ([], s)
  end.

(** [cls+] anchored at the start of [s]: at least one character. *)
Definition match_plus (cls : char -> bool) (s : str) : option (str * str) :=
  match span cls s with
  | ([], _) => None
  | (m, r) => Some (m, r)
  end.

Definition non_space (c : char) : bool := negb (Py_UNICODE_ISSPACE c).

(** The alternation [\S+|\s+]: the left branch is tried first. *)
Definition match_token (s : str) : option (str * str) :=
  match match_plus non_space s with
  | Some mr => Some mr
  | None => match_plus Py_UNICODE_ISSPACE s
  end.

(** [re.findall]: scan left to right; on a match record it and resume
    after it, otherwise move the start position one character on. The
    gas bounds the number of scan positions. *)
Fixpoint findall_from (gas : nat) (s : str) : list str :=
  match gas with
  | 0 => []
  | S gas' =>
      match s with
      | [] => []
      | _ :: s' =>
          match match_token s with
          | Some (m, r) => m :: findall_from gas' r
          | None => findall_from gas' s'
          end
      end
  end.

Definition findall (s : str) : list str := findall_from (length s) s.

(** Token classes: a whitespace run or a word. *)
Definition all_space (t : str) : bool := forallb Py_UNICODE_ISSPACE t.
Definition all_non_space (t : str) : bool := forallb non_space t.

(** The class of a non-empty token, read off its first character. *)
Definition token_class (t : str) : bool :=
  match t with
  | [] => false
  | c :: _ => Py_UNICODE_ISSPACE c
  end.

(** No two neighbours of the sequence have the same class. *)
Fixpoint alternating (ts : list str) : Prop :=
  match ts with
  | [] => True
  | t :: ts' =>
      match ts' with
      | [] => True
      | u :: _ => token_class t <> token_class u
      end /\ alternating ts'
  end.

End Tokenizer.

(** ** The aligner: [difflib.SequenceMatcher(None, a, b)]

    The standard library class that [generate_word_diff] instantiates,
    after CPython 3.11 [Lib/difflib.py], for [isjunk=None] and the default
    [autojunk=True]. *)

Module Difflib.

(** [Match(a, b, size)]. *)
Definition Match : Type := nat * nat * nat.

(** The opcode tags ['equal'], ['insert'], ['delete'], ['replace']. *)
Inductive tag : Type := tag_equal | tag_insert | tag_delete | tag_replace.

(** An opcode [(tag, i1, i2, j1, j2)]. *)
Definition opcode : Type := tag * nat * nat * nat * nat.

Global Instance tag_eq_dec : EqDecision tag.
Proof. solve_decision. Defined.

Section SequenceMatcher.
Context {A : Type} `{Countable A}.

(** The fields of a matcher that the algorithm reads. *)
Record matcher : Type := Matcher {
  seq_a : list A;
  seq_b : list A;
  b2j : gmap A (list nat);
  bjunk : gset A;
  bpopular : gset A;
}.

Definition enumerate {X : Type} (l : list X) : list (nat * X) :=
  imap (fun i x => (i, x)) l.

(** [indices = b2j.setdefault(elt, []); indices.append(i)] *)
Definition setdefault_append (m : gmap A (list nat)) (ie : nat * A)
  : gmap A (list nat) :=
  <[ie.2 := default [] (m !! ie.2) ++ [ie.1]]> m.

(** The first loop of [__chain_b]: every element of [b] mapped to the
    list of the positions where it occurs. *)
Definition index_b (b : list A) : gmap A (list nat) :=
  fold_left setdefault_append (enumerate b) ∅.

(** The elements that [__chain_b] purges as popular: with [n >= 200],
    those that occur more than [n // 100 + 1] times. *)
Definition popular_of (m : gmap A (list nat)) (n : nat) : gset A :=
  if bool_decide (200 <= n) then
    let ntest := n / 100 + 1 in
    dom (filter (fun kv : A * list nat => ntest < length kv.2) m)
  else ∅.

(** [for elt in popular: del b2j[elt]] *)
Definition purge (m : gmap A (list nat)) (popular : gset A)
  : gmap A (list nat) :=
  filter (fun kv : A * list nat => kv.1 ∉ popular) m.

(** [SequenceMatcher(None, a, b)]: [set_seqs] and [__chain_b]. With
    [isjunk=None] the junk set stays empty. *)
Definition SequenceMatcher (a b : list A) : matcher :=
  let m := index_b b in
  let junk : gset A := ∅ in
  let popular := popular_of m (length b) in
  Matcher a b (purge m popular) junk popular.

Section Matching.
Variable self : matcher.

Definition isbjunk (x : A) : bool := bool_decide (x ∈ bjunk self).

Section Region.
Variables alo ahi blo bhi : nat.

(** [j2len.get(j-1, 0)]; the key [-1] is never stored. *)
Definition j2lenget (j2len : gmap nat nat) (j : nat) : nat :=
  match j with
  | 0 => 0
  | S j' => default 0 (j2len !! j')
  end.

(** The inner loop [for j in b2j.get(a[i], nothing)] of
    [find_longest_match], with its [continue] and [break]. *)
Fixpoint scan_row (i : nat) (j2len : gmap nat nat) (js : list nat)
    (newj2len : gmap nat nat) (best : Match) : gmap nat nat * Match :=
  match js with
  | [] => (newj2len, best)
  | j :: js' =>
      if j <? blo then scan_row i j2len js' newj2len best
      else if bhi <=? j then (newj2len, best)
      else
        let k := j2lenget j2len j + 1 in
        let newj2len := <[j := k]> newj2len in
        let best :=
          if best.2 <? k then (i + 1 - k, j + 1 - k, k) else best in
        scan_row i j2len js' newj2len best
  end.

(** The outer loop [for i in range(alo, ahi)]. *)
Fixpoint scan_rows (rows : list nat) (j2len : gmap nat nat) (best : Match)
  : option Match :=
  match rows with
  | [] => Some best
  | i :: rows' =>
      ai ← seq_a self !! i;
      let '(newj2len, best) :=
        scan_row i j2len (default [] (b2j self !! ai)) ∅ best in
      scan_rows rows' newj2len best
  end.

(** [while besti > alo and bestj > blo and <junk test>(b[bestj-1]) and
    a[besti-1] == b[bestj-1]]; [junk] tells which of the two tests of
    the source is meant ([not isbjunk] for [false], [isbjunk] for
    [true]). *)
Fixpoint extend_down (junk : bool) (besti bestj bestsize : nat)
  : option Match :=
  match besti with
  | 0 => Some (besti, bestj, bestsize)
  | S besti' =>
      if (alo <? besti) && (blo <? bestj) then
        y ← seq_b self !! (bestj - 1);
        if eqb (isbjunk y) junk then
          x ← seq_a self !! besti';
          if bool_decide (x = y)
          then extend_down junk besti' (bestj - 1) (bestsize + 1)
          else Some (besti, bestj, bestsize)
        else Some (besti, bestj, bestsize)
      else Some (besti, bestj, bestsize)
  end.

(** [while besti+bestsize < ahi and bestj+bestsize < bhi and
    <junk test>(b[bestj+bestsize]) and
    a[besti+bestsize] == b[bestj+bestsize]] *)
Fixpoint extend_up (gas : nat) (junk : bool) (besti bestj bestsize : nat)
  : option Match :=
  if (besti + bestsize <? ahi) && (bestj + bestsize <? bhi) then
    match gas with
    | 0 => None
    | S gas' =>
        y ← seq_b self !! (bestj + bestsize);
        if eqb (isbjunk y) junk then
          x ← seq_a self !! (besti + bestsize);
          if bool_decide (x = y)
          then extend_up gas' junk besti bestj (bestsize + 1)
          else Some (besti, bestj, bestsize)
        else Some (besti, bestj, bestsize)
    end
  else Some (besti, bestj, bestsize).

Definition find_longest_match : option Match :=
  '(besti, bestj, bestsize) ← scan_rows (seq alo (ahi - alo)) ∅ (alo, blo, 0);
  '(besti, bestj, bestsize) ← extend_down false besti bestj bestsize;
  '(besti, bestj, bestsize) ← extend_up ahi false besti bestj bestsize;
  '(besti, bestj, bestsize) ← extend_down true besti bestj bestsize;
  extend_up ahi true besti bestj bestsize.

End Region.

(** A pending region [(alo, ahi, blo, bhi)]. *)
Definition region : Type := nat * nat * nat * nat.

(** The loop [while queue] of [get_matching_blocks]. The queue is used
    as a stack ([pop] and [append] at the same end): its top is the head
    of the list. *)
Fixpoint matching_loop (gas : nat) (queue : list region)
    (matching_blocks : list Match) : option (list Match) :=
  match queue with
  | [] => Some matching_blocks
  | (alo, ahi, blo, bhi) :: queue =>
      match gas with
      | 0 => None
      | S gas' =>
          '(i, j, k) ← find_longest_match alo ahi blo bhi;
          match k with
          | 0 => matching_loop gas' queue matching_blocks
          | S _ =>
              let matching_blocks := matching_blocks ++ [(i, j, k)] in
              let queue :=
                if (alo <? i) && (blo <? j)
                then (alo, i, blo, j) :: queue else queue in
              let queue :=
                if (i + k <? ahi) && (j + k <? bhi)
                then (i + k, ahi, j + k, bhi) :: queue else queue in
              matching_loop gas' queue matching_blocks
          end
      end
  end.

(** Python's order on the tuples [(i, j, k)]. *)
Definition Match_le (x y : Match) : bool :=
  let '(i1, j1, k1) := x in
  let '(i2, j2, k2) := y in
  (i1 <? i2) || (i1 =? i2) && ((j1 <? j2) || (j1 =? j2) && (k1 <=? k2)).

(** [matching_blocks.sort()] *)
Definition sort_blocks (l : list Match) : list Match :=
  merge_sort (fun x y => Is_true (Match_le x y)) l.

(** One turn of the loop that collapses adjacent equal blocks; the state
    is the block [(i1, j1, k1)] compared against and [non_adjacent]. *)
Definition collapse_step (st : Match * list Match) (blk : Match)
  : Match * list Match :=
  let '((i1, j1, k1), non_adjacent) := st in
  let '(i2, j2, k2) := blk in
  if (i1 + k1 =? i2) && (j1 + k1 =? j2) then
    ((i1, j1, k1 + k2), non_adjacent)
  else
    ((i2, j2, k2),
     match k1 with
     | 0 => non_adjacent
     | S _ => non_adjacent ++ [(i1, j1, k1)]
     end).

Definition collapse (matching_blocks : list Match) : list Match :=
  let '((i1, j1, k1), non_adjacent) :=
    fold_left collapse_step matching_blocks ((0, 0, 0), []) in
  match k1 with
  | 0 => non_adjacent
  | S _ => non_adjacent ++ [(i1, j1, k1)]
  end.

Definition get_matching_blocks : option (list Match) :=
  let la := length (seq_a self) in
  let lb := length (seq_b self) in
  matching_blocks ← matching_loop (2 * la + 1) [(0, la, 0, lb)] [];
  Some (collapse (sort_blocks matching_blocks) ++ [(la, lb, 0)]).

(** One turn of the loop of [get_opcodes]; the state is [(i, j)] and
    [answer]. *)
Definition opcode_step (st : nat * nat * list opcode) (blk : Match)
  : nat * nat * list opcode :=
  let '(i, j, answer) := st in
  let '(ai, bj, size) := blk in
  let answer :=
    if (i <? ai) && (j <? bj) then answer ++ [(tag_replace, i, ai, j, bj)]
    else if i <? ai then answer ++ [(tag_delete, i, ai, j, bj)]
    else if j <? bj then answer ++ [(tag_insert, i, ai, j, bj)]
    else answer in
  let i := ai + size in
  let j := bj + size in
  let answer :=
    match size with
    | 0 => answer
    | S _ => answer ++ [(tag_equal, ai, i, bj, j)]
    end in
  (i, j, answer).

Definition opcodes_of_blocks (blocks : list Match) : list opcode :=
  (fold_left opcode_step blocks (0, 0, [])).2.

Definition get_opcodes : option (list opcode) :=
  blocks ← get_matching_blocks;
  Some (opcodes_of_blocks blocks).

End Matching.
End SequenceMatcher.

End Difflib.

(** ** [frontend/frontend.py] *)

Module Frontend.
Import Tokenizer Difflib.

(** The status strings ['unchanged'], ['deleted'], ['added'],
    ['modified']. *)
Inductive status : Type := unchanged | deleted | added | modified.

Global Instance status_eq_dec : EqDecision status.
Proof. solve_decision. Defined.

(** A list of [(word, status)] tuples. *)
Definition diff : Type := list (str * status).

(** [for i in range(..): d.append((words[i], st))]; [words[i]] raises
    [IndexError] past the end. *)
Fixpoint append_range (words : list str) (range : list nat) (st : status)
    (d : diff) : option diff :=
  match range with
  | [] => Some d
  | i :: range' =>
      w ← words !! i;
      append_range words range' st (d ++ [(w, st)])
  end.

(** The body of the loop over the opcodes. *)
Definition classify_step (original_words revised_words : list str)
    (acc : diff * diff) (op : opcode) : option (diff * diff) :=
  let '(original_diff, revised_diff) := acc in
  let '(tg, i1, i2, j1, j2) := op in
  match tg with
  | tag_equal =>
      original_diff ←
        append_range original_words (seq i1 (i2 - i1)) unchanged original_diff;
      revised_diff ←
        append_range revised_words (seq j1 (j2 - j1)) unchanged revised_diff;
      Some (original_diff, revised_diff)
  | tag_delete =>
      original_diff ←
        append_range original_words (seq i1 (i2 - i1)) deleted original_diff;
      Some (original_diff, revised_diff)
  | tag_insert =>
      revised_diff ←
        append_range revised_words (seq j1 (j2 - j1)) added revised_diff;
      Some (original_diff, revised_diff)
  | tag_replace =>
      original_diff ←
        append_range original_words (seq i1 (i2 - i1)) modified original_diff;
      revised_diff ←
        append_range revised_words (seq j1 (j2 - j1)) modified revised_diff;
      Some (original_diff, revised_diff)
  end.

Fixpoint classify (original_words revised_words : list str)
    (ops : list opcode) (acc : diff * diff) : option (diff * diff) :=
  match ops with
  | [] => Some acc
  | op :: ops' =>
      acc' ← classify_step original_words revised_words acc op;
      classify original_words revised_words ops' acc'
  end.

(** The opcodes that [generate_word_diff] iterates over. *)
Definition word_opcodes (original revised : str) : option (list opcode) :=
  get_opcodes (SequenceMatcher (findall original) (findall revised)).

Definition generate_word_diff (original revised : str)
  : option (diff * diff) :=
  let original_words := findall original in
  let revised_words := findall revised in
  let matcher := SequenceMatcher original_words revised_words in
  ops ← get_opcodes matcher;
  classify original_words revised_words ops ([], []).

(** [sum(1 for _, status in d if status == st)] *)
Definition count_status (st : status) (d : list (str * status)) : nat :=
  length (filter (fun ws : str * status => ws.2 = st) d).

(** The number of tokens of one side that the opcodes with tag [tg]
    span. *)
Definition span_original (tg : tag) (ops : list opcode) : nat :=
  sum_list (map (fun '(t, i1, i2, _, _) =>
                   if decide (t = tg) then i2 - i1 else 0) ops).
Definition span_revised (tg : tag) (ops : list opcode) : nat :=
  sum_list (map (fun '(t, _, _, j1, j2) =>
                   if decide (t = tg) then j2 - j1 else 0) ops).

(** The radio button offers the two modes. *)
Inductive mode : Type := full | grammar.

Definition mode_str (m : mode) : str :=
  match m with
  | full => py "full"
  | grammar => py "grammar"
  end.

(** What the results part of the page keeps in [st.session_state]. *)
Record session_state : Type := SessionState {
  original_text : str;
  assisted_text : str;
}.

(** [str(n)] for a count. *)
Definition str_of_nat (n : nat) : str := py (pretty n).

(** The f-string of the comparison report, as a function of the values
    that it interpolates. *)
Definition report_text (original assisted mode_used : str)
    (n_added n_modified n_deleted : nat) : str :=
  py "ORIGINAL TEXT:" ++ [10%N] ++ original ++ [10%N; 10%N]
  ++ py "REVISED TEXT:" ++ [10%N] ++ assisted ++ [10%N; 10%N]
  ++ py "CHANGES SUMMARY:" ++ [10%N]
  ++ py "- Mode used: " ++ mode_used ++ [10%N]
  ++ py "- Added words: " ++ str_of_nat n_added ++ [10%N]
  ++ py "- Modified words: " ++ str_of_nat n_modified ++ [10%N]
  ++ py "- Deleted words: " ++ str_of_nat n_deleted ++ [10%N].

(** What one run of the results part of the script shows: the three
    metrics of the change summary ([None] when the texts are equal and
    the page says that no changes were detected), the counts that the
    report interpolates, and the report. *)
Record results_view : Type := ResultsView {
  summary_counts : option (nat * nat * nat);
  report_counts : nat * nat * nat;
  comparison_report : str;
}.

(** The script from "Diff viewer" to "Download Report"; the counts are
    triples [(added, modified, deleted)]. *)
Definition render_results (state : session_state) (m : mode)
  : option results_view :=
  summary ←
    (if bool_decide (original_text state <> assisted_text state) then
       '(original_diff, revised_diff) ←
         generate_word_diff (original_text state) (assisted_text state);
       let added_count := count_status added revised_diff in
       let deleted_count := count_status deleted original_diff in
       let modified_count := count_status modified revised_diff in
       Some (Some (added_count, modified_count, deleted_count))
     else Some None);
  (* "Ensure diffs are always defined" *)
  let original_diff : diff := [] in
  let revised_diff : diff := [] in
  let counts :=
    (count_status added revised_diff,
     count_status modified revised_diff,
     count_status deleted original_diff) in
  Some (ResultsView summary counts
          (report_text (original_text state) (assisted_text state)
             (mode_str m) counts.1.1 counts.1.2 counts.2)).

End Frontend.

(** ** [backend/backend.py] *)

Module Backend.

(** [str.strip()] with no argument. *)
Fixpoint lstrip (s : str) : str :=
  match s with
  | [] => []
  | c :: s' => if Py_UNICODE_ISSPACE c then lstrip s' else s
  end.
Definition rstrip (s : str) : str := rev (lstrip (rev s)).
Definition strip (s : str) : str := rstrip (lstrip s).

Inductive mode : Type := full | grammar.

Record AssistRequest : Type := Build_AssistRequest {
  text : str;
  mode_of : mode;
}.

(** A decoded JSON value. *)
#[warnings="-register-all"]
Inductive json : Type :=
  | JNull
  | JBool (b : bool)
  | JInt (z : Z)
  | JFloat (repr : str)
  | JStr (s : str)
  | JArr (l : list json)
  | JObj (fields : list (str * json)).

(** What [res.json()] gives: the decoded body, or the message of the
    decoding error. *)
Inductive body : Type :=
  | NotJson (msg : str)
  | Json (v : json).

(** What one call of [requests.post] gives: an exception of the
    transport (connection refused, timeout, ...) with its message, or
    the response that it returns. *)
Inductive post_result : Type :=
  | Raised (msg : str)
  | Response (status_code : nat) (reason : str) (payload : body).

(** The inference backend: its answer to the [n]-th request, given the
    prompt sent. *)
Definition backend : Type := nat -> str -> post_result.

(** The exceptions that the handler can catch. *)
Inductive exn : Type :=
  | RequestException (msg : str)
  | HTTPError (msg : str)
  | JSONDecodeError (msg : str)
  | KeyError (key : str)
  | TypeError (msg : str)
  | AttributeError (msg : str).

(** [str(e)]; for a [KeyError] it is the [repr] of the key. *)
Definition str_of_exn (e : exn) : str :=
  match e with
  | RequestException msg | HTTPError msg | JSONDecodeError msg
  | TypeError msg | AttributeError msg => msg
  | KeyError key => [39%N] ++ key ++ [39%N]
  end.

Definition url : str := py "http://localhost:11434/api/generate".

(** [Response.raise_for_status] of [requests]. *)
Definition raise_for_status (status_code : nat) (reason : str) : option exn :=
  if (400 <=? status_code) && (status_code <? 500) then
    Some (HTTPError (py (pretty status_code) ++ py " Client Error: "
                     ++ reason ++ py " for url: " ++ url))
  else if (500 <=? status_code) && (status_code <? 600) then
    Some (HTTPError (py (pretty status_code) ++ py " Server Error: "
                     ++ reason ++ py " for url: " ++ url))
  else None.

Definition type_name (v : json) : str :=
  match v with
  | JNull => py "NoneType"
  | JBool _ => py "bool"
  | JInt _ => py "int"
  | JFloat _ => py "float"
  | JStr _ => py "str"
  | JArr _ => py "list"
  | JObj _ => py "dict"
  end.

Fixpoint dict_get (fields : list (str * json)) (key : str) : option json :=
  match fields with
  | [] => None
  | (k, v) :: fields' =>
      if decide (k = key) then Some v else dict_get fields' key
  end.

(** [v[key]] for a string key. *)
Definition subscript (v : json) (key : str) : exn + json :=
  match v with
  | JObj fields =>
      match dict_get fields key with
      | Some x => inr x
      | None => inl (KeyError key)
      end
  | JStr _ => inl (TypeError (py "string indices must be integers, not 'str'"))
  | JArr _ =>
      inl (TypeError (py "list indices must be integers or slices, not str"))
  | _ => inl (TypeError ([39%N] ++ type_name v
                         ++ py "' object is not subscriptable"))
  end.

(** [response.strip()] on what [query_ollama] returned. *)
Definition strip_method (v : json) : exn + str :=
  match v with
  | JStr s => inr (strip s)
  | _ => inl (AttributeError ([39%N] ++ type_name v
                              ++ py "' object has no attribute 'strip'"))
  end.

(** The state threaded through the handler: the prompts posted to the
    inference backend so far, oldest first. *)
Definition net_log : Type := list str.

(** [query_ollama(prompt)] *)
Definition query_ollama (be : backend) (prompt : str) (log : net_log)
  : net_log * (exn + json) :=
  let res := be (length log) prompt in
  let log := log ++ [prompt] in
  match res with
  | Raised msg => (log, inl (RequestException msg))
  | Response status_code reason payload =>
      match raise_for_status status_code reason with
      | Some e => (log, inl e)
      | None =>
          match payload with
          | NotJson msg => (log, inl (JSONDecodeError msg))
          | Json v => (log, subscript v (py "response"))
          end
      end
  end.

Definition grammar_prompt : str :=
  py "Correct the grammar, spelling, and punctuation in the following text. "
  ++ py "Do **not** change the style, tone, vocabulary, structure, or meaning. "
  ++ py "Respond with **only** the corrected text." ++ [10%N; 10%N].

Definition full_prompt : str :=
  py "Improve the clarity, style and academic tone of the following text. "
  ++ py "Do **not** change the meaning and the language. "
  ++ py "Respond with the corrected text **only**." ++ [10%N; 10%N].

(** What the client of [/assist] receives: the body
    [{"assisted_text": ...}] of a 200, or an [HTTPException]. *)
Inductive http_result : Type :=
  | Ok200 (assisted_text : str)
  | HTTPException (status_code : nat) (detail : str).

Definition status_of (r : http_result) : nat :=
  match r with
  | Ok200 _ => 200
  | HTTPException status_code _ => status_code
  end.

(** "Prepare prompt": the template of the mode, then the trimmed text. *)
Definition build_prompt (m : mode) (original_text : str) : str :=
  match m with
  | grammar => grammar_prompt ++ original_text
  | full => full_prompt ++ original_text
  end.

(** The handler of [POST /assist]. *)
Definition assist_report (be : backend) (data : AssistRequest)
    (log : net_log) : net_log * http_result :=
  let original_text := strip (text data) in
  match original_text with
  | [] => (log, HTTPException 422 (py "Empty text input."))
  | _ :: _ =>
      let prompt := build_prompt (mode_of data) original_text in
      match query_ollama be prompt log with
      | (log, inl e) =>
          (log, HTTPException 500 (py "LLM error: " ++ str_of_exn e))
      | (log, inr response) =>
          match strip_method response with
          | inl e =>
              (log, HTTPException 500 (py "LLM error: " ++ str_of_exn e))
          | inr assisted => (log, Ok200 assisted)
          end
      end
  end.

(** The failures of the inference backend: no response at all, or a
    response whose status is outside 2xx. *)
Definition non_2xx (status_code : nat) : Prop :=
  ~ (200 <= status_code < 300).

Definition is_error_status (status_code : nat) : Prop :=
  400 <= status_code < 600.

End Backend.

(** ** Predicates on regions, blocks and opcodes *)

Module Layout.
Import Difflib.

(** The rectangle of index pairs that a matching block covers. *)
Definition rect_of (m : Match) : region :=
  (m.1.1, m.1.1 + m.2, m.1.2, m.1.2 + m.2).

(** [r1] ends, on both sides, where [r2] starts or earlier. *)
Definition before (r1 r2 : region) : Prop :=
  r1.1.1.2 <= r2.1.1.1 /\ r1.2 <= r2.1.2.

Definition apart (r1 r2 : region) : Prop := before r1 r2 \/ before r2 r1.

Fixpoint pairwise_apart (l : list region) : Prop :=
  match l with
  | [] => True
  | r :: l' => Forall (apart r) l' /\ pairwise_apart l'
  end.

(** [s] lies inside [r]. *)
Definition sub_rect (r s : region) : Prop :=
  r.1.1.1 <= s.1.1.1 /\ s.1.1.2 <= r.1.1.2
  /\ r.1.2 <= s.1.2 /\ s.2 <= r.2.

(** A well-formed region of sequences of lengths [la] and [lb]. *)
Definition within (la lb : nat) (r : region) : Prop :=
  r.1.1.1 <= r.1.1.2 <= la /\ r.1.2 <= r.2 <= lb.

(** The measure that bounds the turns of the loop over the queue. *)
Definition weight (queue : list region) : nat :=
  sum_list (map (fun r : region => 1 + 2 * (r.1.1.2 - r.1.1.1)) queue).

Definition block_before (x y : Match) : Prop :=
  before (rect_of x) (rect_of y).

(** The blocks of [l] follow one another from [(i, j)] on, monotonically
    in both sequences, and end within [(la, lb)]. *)
Fixpoint chain (la lb : nat) (i j : nat) (l : list Match) : Prop :=
  match l with
  | [] => i <= la /\ j <= lb
  | m :: l' =>
      i <= m.1.1 /\ j <= m.1.2 /\ chain la lb (m.1.1 + m.2) (m.1.2 + m.2) l'
  end.

(** The opcodes tile the original side from [i] to [i'] and the revised
    side from [j] to [j']: each starts where the one before it ended, on
    both sides; a delete spans nothing of the revised side and an insert
    nothing of the original side. *)
Fixpoint tiles (i j : nat) (ops : list opcode) (i' j' : nat) : Prop :=
  match ops with
  | [] => i = i' /\ j = j'
  | (tg, i1, i2, j1, j2) :: ops' =>
      i1 = i /\ j1 = j /\ i1 <= i2 /\ j1 <= j2
      /\ match tg with
         | tag_delete => j1 = j2
         | tag_insert => i1 = i2
         | _ => True
         end
      /\ tiles i2 j2 ops' i' j'
  end.

(** The entries of [j2len] once the rows below [i] of the region are
    done. *)
Definition row_inv (alo blo bhi i : nat) (j2len : gmap nat nat) : Prop :=
  forall j v, j2len !! j = Some v ->
    blo <= j < bhi /\ v <= i - alo /\ v <= j + 1 - blo.

(** The best match so far lies in the rows below [i] of the region. *)
Definition best_inv (alo blo bhi i : nat) (best : Match) : Prop :=
  alo <= best.1.1 /\ blo <= best.1.2
  /\ best.1.1 + best.2 <= i /\ best.1.2 + best.2 <= bhi.

(** The match lies inside the region. *)
Definition in_region (alo ahi blo bhi : nat) (m : Match) : Prop :=
  alo <= m.1.1 /\ blo <= m.1.2
  /\ m.1.1 + m.2 <= ahi /\ m.1.2 + m.2 <= bhi.

(** The invariant of the loop over the queue: the pending regions and
    the blocks found are pairwise apart and inside both sequences, and
    no block is empty. *)
Definition loop_inv {A : Type} `{Countable A} (self : matcher (A := A))
    (queue : list region) (blocks : list Match) : Prop :=
  pairwise_apart (queue ++ map rect_of blocks)
  /\ Forall (within (length (seq_a self)) (length (seq_b self))) queue
  /\ Forall (fun m => 0 < m.2
                      /\ within (length (seq_a self)) (length (seq_b self))
                           (rect_of m)) blocks.

(** [js] lists, in increasing order, the positions of [x] in [b]. *)
Definition occurrences {A : Type} (b : list A) (x : A) (js : list nat)
  : Prop :=
  StronglySorted lt js /\ forall j, j ∈ js <-> b !! j = Some x.

Section Runs.
Context {A : Type} `{Countable A}.
Variable self : matcher (A := A).

(** [x] is a key of [b2j]: it occurs in [b] and was not purged. *)
Definition is_key (x : A) : bool :=
  match b2j self !! x with
  | Some _ => true
  | None => false
  end.

(** The length of the run of keys of [b2j] that ends just before
    position [i] of [b]. *)
Fixpoint runlen (i : nat) : nat :=
  match i with
  | 0 => 0
  | S i' =>
      match seq_b self !! i' with
      | Some x => if is_key x then S (runlen i') else 0
      | None => 0
      end
  end.

(** The state of the scan of a sequence against itself after the rows
    below [i]: the best match lies on the diagonal and is at least as
    long as every run of keys met so far. *)
Definition diag_inv (i : nat) (j2len : gmap nat nat) (best : Match) : Prop :=
  (forall j v, j2len !! j = Some v -> v <= runlen (Nat.min i (S j)))
  /\ j2lenget j2len i = runlen i
  /\ best.1.1 = best.1.2
  /\ forall i', i' <= i -> runlen i' <= best.2.

End Runs.

(** [l[i:k]] *)
Definition slice {X : Type} (i k : nat) (l : list X) : list X :=
  take (k - i) (drop i l).

Definition valid_op (la lb : nat) (op : opcode) : Prop :=
  let '(_, i1, i2, j1, j2) := op in i1 <= i2 <= la /\ j1 <= j2 <= lb.

Definition tagged (st : Frontend.status) (ws : list str) : Frontend.diff :=
  map (fun w => (w, st)) ws.

(** What one opcode contributes to each of the two diffs. *)
Definition original_part (words : list str) (op : opcode) : Frontend.diff :=
  let '(tg, i1, i2, _, _) := op in
  match tg with
  | tag_equal => tagged Frontend.unchanged (slice i1 i2 words)
  | tag_delete => tagged Frontend.deleted (slice i1 i2 words)
  | tag_insert => []
  | tag_replace => tagged Frontend.modified (slice i1 i2 words)
  end.

Definition revised_part (words : list str) (op : opcode) : Frontend.diff :=
  let '(tg, _, _, j1, j2) := op in
  match tg with
  | tag_equal => tagged Frontend.unchanged (slice j1 j2 words)
  | tag_delete => []
  | tag_insert => tagged Frontend.added (slice j1 j2 words)
  | tag_replace => tagged Frontend.modified (slice j1 j2 words)
  end.

End Layout.

(** ** What the blocks and the opcodes say about the two sequences *)

Module Alignment.
Import Difflib Layout.

(** The block pairs equal elements: [a[i:i+k] == b[j:j+k]], position by
    position. *)
Definition matches {A : Type} (a b : list A) (m : Match) : Prop :=
  forall d, d < m.2 -> a !! (m.1.1 + d) = b !! (m.1.2 + d).

(** The entries of [j2len] once the rows below [r] are done: the entry
    at [j] is the length of a match that ends at [a[r-1]] and [b[j]]. *)
Definition row_matches {A : Type} (a b : list A) (r : nat)
    (j2len : gmap nat nat) : Prop :=
  forall j v, j2len !! j = Some v ->
    v <= r /\ v <= j + 1
    /\ forall d, d < v -> a !! (r - v + d) = b !! (j + 1 - v + d).

(** The tag of an opcode tells which of its two ranges are empty. *)
Definition well_shaped (op : opcode) : Prop :=
  let '(tg, i1, i2, j1, j2) := op in
  match tg with
  | tag_equal => i1 < i2 /\ i2 - i1 = j2 - j1
  | tag_replace => i1 < i2 /\ j1 < j2
  | tag_delete => i1 < i2 /\ j1 = j2
  | tag_insert => i1 = i2 /\ j1 < j2
  end.

(** An ['equal'] opcode spans the same elements on both sides. *)
Definition equal_agrees {A : Type} (a b : list A) (op : opcode) : Prop :=
  let '(tg, i1, i2, j1, j2) := op in
  tg = tag_equal -> slice i1 i2 a = slice j1 j2 b.

(** The words of a diff that are tagged ['unchanged'], in order. *)
Definition unchanged_words (d : list (str * Frontend.status)) : list str :=
  map fst (filter (fun ws : str * Frontend.status =>
                     ws.2 = Frontend.unchanged) d).

End Alignment.

(** ** [frontend/api.py] *)

Module Client.
Import Backend.

Definition API_URL : str := py "http://127.0.0.1:8000/assist".

(** [Response.raise_for_status] of [requests], for a response to a
    request sent to [url]. *)
Definition raise_for_status (url : str) (status_code : nat) (reason : str)
  : option exn :=
  if (400 <=? status_code) && (status_code <? 500) then
    Some (HTTPError (py (pretty status_code) ++ py " Client Error: "
                     ++ reason ++ py " for url: " ++ url))
  else if (500 <=? status_code) && (status_code <? 600) then
    Some (HTTPError (py (pretty status_code) ++ py " Server Error: "
                     ++ reason ++ py " for url: " ++ url))
  else None.

(** [correct_text(input_text, mode)]. The [AssistRequest] of [api.py]
    has the fields of the one of [backend.py]; [server] is what answers
    the post to [API_URL]. *)
Definition correct_text (server : AssistRequest -> post_result)
    (input_text : str) (m : mode) : exn + json :=
  let request_body := Build_AssistRequest input_text m in
  match server request_body with
  | Raised msg => inl (RequestException msg)
  | Response status_code reason payload =>
      match raise_for_status API_URL status_code reason with
      | Some e => inl e
      | None =>
          match payload with
          | NotJson msg => inl (JSONDecodeError msg)
          | Json v => subscript v (py "assisted_text")
          end
      end
  end.

End Client.

(** Goals [Forall P [x1; ...; xn]] whose instances are at hand. *)
Ltac forall_list :=
  repeat first [apply Forall_nil_2 | apply Forall_cons; split];
  try assumption.

(** ** Tokenizer lemmas *)

Section TokenizerFacts.
Import Tokenizer.

Lemma span_app cls s m r : span cls s = (m, r) -> m ++ r = s.
Proof.
  revert m r. induction s as [|c s IH]; intros m r; simpl.
  - intros [= <- <-]. reflexivity.
  - destruct (cls c).
    + destruct (span cls s) as [m' r'] eqn:E. intros [= <- <-].
      simpl. f_equal. now apply IH.
    + intros [= <- <-]. reflexivity.
Qed.

Lemma span_all cls s m r : span cls s = (m, r) -> forallb cls m = true.
Proof.
  revert m r. induction s as [|c s IH]; intros m r; simpl.
  - intros [= <- <-]. reflexivity.
  - destruct (cls c) eqn:Ec.
    + destruct (span cls s) as [m' r'] eqn:E. intros [= <- <-].
      simpl. rewrite Ec. simpl. eapply IH. reflexivity.
    + intros [= <- <-]. reflexivity.
Qed.

(** Maximality: what follows the run does not start in the class. *)
Lemma span_rest cls s m r :
  span cls s = (m, r) ->
  match r with [] => True | d :: _ => cls d = false end.
Proof.
  revert m r. induction s as [|c s IH]; intros m r; simpl.
  - intros [= <- <-]. exact I.
  - destruct (cls c) eqn:Ec.
    + destruct (span cls s) as [m' r'] eqn:E. intros [= <- <-].
      eapply IH. reflexivity.
    + intros [= <- <-]. exact Ec.
Qed.

Lemma span_length cls s m r :
  span cls s = (m, r) -> length m + length r = length s.
Proof.
  intros H. apply span_app in H. subst s. now rewrite length_app.
Qed.

(** At a non-empty input the alternation always matches, with a
    non-empty token of the class of the first character. *)
Lemma match_token_cons c s :
  exists d m r,
    match_token (c :: s) = Some (d :: m, r)
    /\ d :: m ++ r = c :: s
    /\ (if Py_UNICODE_ISSPACE c then all_space (d :: m) = true
        else all_non_space (d :: m) = true)
    /\ token_class (d :: m) = Py_UNICODE_ISSPACE c
    /\ match r with
       | [] => True
       | e :: _ => Py_UNICODE_ISSPACE e <> Py_UNICODE_ISSPACE c
       end.
Proof.
  unfold match_token, match_plus.
  destruct (Py_UNICODE_ISSPACE c) eqn:Ec.
  - assert (Hn : span non_space (c :: s) = ([], c :: s)).
    { simpl. unfold non_space at 1. rewrite Ec. reflexivity. }
    rewrite Hn.
    destruct (span Py_UNICODE_ISSPACE (c :: s)) as [m r] eqn:E.
    pose proof (span_app _ _ _ _ E) as Happ.
    pose proof (span_all _ _ _ _ E) as Hall.
    pose proof (span_rest _ _ _ _ E) as Hrest.
    simpl in E. rewrite Ec in E.
    destruct (span Py_UNICODE_ISSPACE s) as [m' r'] eqn:E'.
    injection E as <- <-.
    exists c, m', r'. split_and!; [reflexivity | exact Happ | exact Hall | exact Ec |].
    destruct r' as [|e r']; [exact I|]. rewrite Hrest. discriminate.
  - destruct (span non_space (c :: s)) as [m r] eqn:E.
    pose proof (span_app _ _ _ _ E) as Happ.
    pose proof (span_all _ _ _ _ E) as Hall.
    pose proof (span_rest _ _ _ _ E) as Hrest.
    simpl in E. unfold non_space at 1 in E. rewrite Ec in E. simpl in E.
    destruct (span non_space s) as [m' r'] eqn:E'.
    injection E as <- <-.
    exists c, m', r'. split_and!; [reflexivity | exact Happ | exact Hall | exact Ec |].
    destruct r' as [|e r']; [exact I|].
    unfold non_space in Hrest. destruct (Py_UNICODE_ISSPACE e); discriminate.
Qed.

(** The scan with enough gas: one token, then the scan of the rest. *)
Lemma findall_from_cons gas c s :
  exists d m r,
    findall_from (S gas) (c :: s) = (d :: m) :: findall_from gas r
    /\ d :: m ++ r = c :: s
    /\ (if Py_UNICODE_ISSPACE c then all_space (d :: m) = true
        else all_non_space (d :: m) = true)
    /\ token_class (d :: m) = Py_UNICODE_ISSPACE c
    /\ match r with
       | [] => True
       | e :: _ => Py_UNICODE_ISSPACE e <> Py_UNICODE_ISSPACE c
       end.
Proof.
  destruct (match_token_cons c s) as (d & m & r & Hm & Happ & Hcls & Htc & Hr).
  exists d, m, r. split_and!; try assumption.
  cbn [findall_from]. rewrite Hm. reflexivity.
Qed.

Lemma findall_from_concat gas s :
  length s <= gas -> concat (findall_from gas s) = s.
Proof.
  revert s. induction gas as [|gas IH]; intros s Hlen.
  - destruct s; [reflexivity | simpl in Hlen; lia].
  - destruct s as [|c s]; [reflexivity|].
    destruct (findall_from_cons gas c s) as (d & m & r & -> & Happ & _).
    cbn [concat]. rewrite IH.
    + exact Happ.
    + apply (f_equal (@length _)) in Happ. simpl in Happ, Hlen.
      rewrite length_app in Happ. lia.
Qed.

(** More gas than characters changes nothing. *)
Lemma findall_from_gas gas s :
  length s <= gas -> findall_from gas s = findall s.
Proof.
  unfold findall. revert s.
  induction gas as [gas IH] using lt_wf_ind. intros s Hlen.
  destruct s as [|c s].
  - destruct gas; reflexivity.
  - destruct gas as [|gas]; [simpl in Hlen; lia|].
    cbn [length].
    destruct (match_token_cons c s) as (d & m & r & Hm & Happ & _).
    cbn [findall_from]. rewrite Hm.
    assert (Hr : length r <= length s).
    { apply (f_equal (@length _)) in Happ. simpl in Happ.
      rewrite length_app in Happ. lia. }
    simpl in Hlen.
    rewrite (IH gas) by lia. rewrite (IH (length s)) by lia. reflexivity.
Qed.

Lemma findall_from_classes gas s :
  length s <= gas ->
  Forall (fun t => t <> [] /\ (all_space t = true \/ all_non_space t = true))
         (findall_from gas s).
Proof.
  revert s. induction gas as [|gas IH]; intros s Hlen.
  - constructor.
  - destruct s as [|c s]; [constructor|].
    destruct (findall_from_cons gas c s) as (d & m & r & -> & Happ & Hcls & _).
    constructor.
    + split; [discriminate|].
      destruct (Py_UNICODE_ISSPACE c); [left | right]; exact Hcls.
    + apply IH. apply (f_equal (@length _)) in Happ. simpl in Happ, Hlen.
      rewrite length_app in Happ. lia.
Qed.

Lemma findall_from_alternating gas s :
  length s <= gas -> alternating (findall_from gas s).
Proof.
  revert s. induction gas as [|gas IH]; intros s Hlen.
  - exact I.
  - destruct s as [|c s]; [exact I|].
    destruct (findall_from_cons gas c s)
      as (d & m & r & -> & Happ & _ & Htc & Hr).
    assert (Hlr : length r <= gas).
    { apply (f_equal (@length _)) in Happ. simpl in Happ, Hlen.
      rewrite length_app in Happ. lia. }
    cbn [alternating]. split; [|now apply IH].
    destruct gas as [|gas'].
    + exact I.
    + destruct r as [|e r']; [exact I|].
      destruct (findall_from_cons gas' e r') as (d' & m' & r'' & -> & _ & _ & Htc' & _).
      rewrite Htc, Htc'. congruence.
Qed.

End TokenizerFacts.

(** ** [find_longest_match] stays inside its region *)

Section FindLongestMatchFacts.
Import Difflib Layout.
Context {A : Type} `{Countable A}.
Variable self : matcher (A := A).
Variables alo ahi blo bhi : nat.

Lemma j2lenget_bound i j2len j :
  row_inv alo blo bhi i j2len -> blo <= j ->
  j2lenget j2len j <= i - alo /\ j2lenget j2len j <= j - blo.
Proof.
  intros Hinv Hj. destruct j as [|j']; simpl; [lia|].
  destruct (j2len !! j') as [v|] eqn:E; simpl; [|lia].
  destruct (Hinv _ _ E) as (? & ? & ?). lia.
Qed.

Lemma scan_row_inv i j2len js newj2len best m' best' :
  alo <= i -> row_inv alo blo bhi i j2len ->
  row_inv alo blo bhi (S i) newj2len -> best_inv alo blo bhi (S i) best ->
  scan_row blo bhi i j2len js newj2len best = (m', best') ->
  row_inv alo blo bhi (S i) m' /\ best_inv alo blo bhi (S i) best'.
Proof.
  intros Hi Hold. revert newj2len best.
  induction js as [|j js IH]; intros newj2len best Hnew Hbest; simpl.
  - intros [= <- <-]. auto.
  - destruct (j <? blo) eqn:E1; [now apply IH|].
    destruct (bhi <=? j) eqn:E2; [intros [= <- <-]; auto|].
    apply Nat.ltb_ge in E1. apply Nat.leb_gt in E2.
    destruct (j2lenget_bound i j2len j Hold E1) as [Ha Hb].
    apply IH.
    + intros j0 v. rewrite lookup_insert. case_decide as Hj.
      * intros [= <-]. subst j0. lia.
      * apply Hnew.
    + destruct best as [[bi bj] bs]. unfold best_inv in *. simpl in *.
      destruct (bs <? j2lenget j2len j + 1); simpl; lia.
Qed.

Lemma scan_rows_inv n : forall i j2len best,
  i + n <= length (seq_a self) -> alo <= i ->
  row_inv alo blo bhi i j2len -> best_inv alo blo bhi i best ->
  exists best',
    scan_rows self blo bhi (seq i n) j2len best = Some best'
    /\ best_inv alo blo bhi (i + n) best'.
Proof.
  induction n as [|n IH]; intros i j2len best Hlen Hi Hrow Hbest.
  - exists best. rewrite Nat.add_0_r. auto.
  - cbn [seq scan_rows].
    destruct (lookup_lt_is_Some_2 (seq_a self) i) as [ai Hai]; [lia|].
    rewrite Hai. cbn [mbind option_bind].
    destruct (scan_row blo bhi i j2len (default [] (b2j self !! ai)) ∅ best)
      as [m' best1] eqn:E.
    apply scan_row_inv in E; try assumption.
    + destruct E as [Hrow' Hbest'].
      destruct (IH (S i) m' best1) as (best' & -> & Hb); try assumption; try lia.
      exists best'. split; [reflexivity|].
      replace (i + S n) with (S i + n) by lia. exact Hb.
    + intros j v. rewrite lookup_empty. discriminate.
    + unfold best_inv in *. lia.
Qed.

Lemma extend_down_inv junk besti : forall bestj bestsize,
  ahi <= length (seq_a self) -> bhi <= length (seq_b self) ->
  in_region alo ahi blo bhi (besti, bestj, bestsize) ->
  exists m, extend_down self alo blo junk besti bestj bestsize = Some m
            /\ in_region alo ahi blo bhi m.
Proof.
  induction besti as [|i IH]; intros bestj bestsize Ha Hb Hin.
  - simpl. eauto.
  - cbn [extend_down].
    destruct ((alo <? S i) && (blo <? bestj)) eqn:Ec; [|eauto].
    apply andb_true_iff in Ec as [E1 E2].
    apply Nat.ltb_lt in E1, E2.
    unfold in_region in Hin. simpl in Hin.
    destruct (lookup_lt_is_Some_2 (seq_b self) (bestj - 1)) as [y Hy]; [lia|].
    rewrite Hy. cbn [mbind option_bind].
    destruct (eqb (isbjunk self y) junk); [|eexists; split; [reflexivity|exact Hin]].
    destruct (lookup_lt_is_Some_2 (seq_a self) i) as [x Hx]; [lia|].
    rewrite Hx. cbn [mbind option_bind].
    destruct (bool_decide (x = y)); [|eexists; split; [reflexivity|exact Hin]].
    apply IH; try assumption. unfold in_region. simpl. lia.
Qed.

Lemma extend_up_inv junk besti bestj gas : forall bestsize,
  ahi <= length (seq_a self) -> bhi <= length (seq_b self) ->
  ahi - (besti + bestsize) <= gas ->
  in_region alo ahi blo bhi (besti, bestj, bestsize) ->
  exists m, extend_up self ahi bhi gas junk besti bestj bestsize = Some m
            /\ in_region alo ahi blo bhi m.
Proof.
  induction gas as [|gas IH]; intros bestsize Ha Hb Hgas Hin.
  - simpl.
    destruct ((besti + bestsize <? ahi) && (bestj + bestsize <? bhi)) eqn:Ec;
      [|eauto].
    apply andb_true_iff in Ec as [E1 E2]. apply Nat.ltb_lt in E1. lia.
  - cbn [extend_up].
    destruct ((besti + bestsize <? ahi) && (bestj + bestsize <? bhi)) eqn:Ec;
      [|eauto].
    apply andb_true_iff in Ec as [E1 E2].
    apply Nat.ltb_lt in E1, E2.
    unfold in_region in Hin. simpl in Hin.
    destruct (lookup_lt_is_Some_2 (seq_b self) (bestj + bestsize))
      as [y Hy]; [lia|].
    rewrite Hy. cbn [mbind option_bind].
    destruct (eqb (isbjunk self y) junk); [|eexists; split; [reflexivity|exact Hin]].
    destruct (lookup_lt_is_Some_2 (seq_a self) (besti + bestsize))
      as [x Hx]; [lia|].
    rewrite Hx. cbn [mbind option_bind].
    destruct (bool_decide (x = y)); [|eexists; split; [reflexivity|exact Hin]].
    apply IH; try assumption; [lia|]. unfold in_region. simpl. lia.
Qed.

(** On a region inside both sequences [find_longest_match] returns, and
    its match lies in the region. *)
Lemma find_longest_match_in_region :
  alo <= ahi <= length (seq_a self) ->
  blo <= bhi <= length (seq_b self) ->
  exists m, find_longest_match self alo ahi blo bhi = Some m
            /\ in_region alo ahi blo bhi m.
Proof.
  intros Ha Hb. unfold find_longest_match.
  destruct (scan_rows_inv (ahi - alo) alo ∅ (alo, blo, 0))
    as ([[i0 j0] k0] & -> & H0).
  - lia.
  - lia.
  - intros j v. rewrite lookup_empty. discriminate.
  - unfold best_inv. simpl. lia.
  - cbn [mbind option_bind].
    assert (Hin0 : in_region alo ahi blo bhi (i0, j0, k0)).
    { unfold best_inv in H0. unfold in_region. simpl in *. lia. }
    destruct (extend_down_inv false i0 j0 k0) as ([[i1 j1] k1] & -> & H1);
      [lia | lia | exact Hin0 |].
    cbn [mbind option_bind].
    destruct (extend_up_inv false i1 j1 ahi k1) as ([[i2 j2] k2] & -> & H2);
      [lia | lia | lia | exact H1 |].
    cbn [mbind option_bind].
    destruct (extend_down_inv true i2 j2 k2) as ([[i3 j3] k3] & -> & H3);
      [lia | lia | exact H2 |].
    cbn [mbind option_bind].
    destruct (extend_up_inv true i3 j3 ahi k3) as (m & -> & H4);
      [lia | lia | lia | exact H3 |].
    eauto.
Qed.

End FindLongestMatchFacts.

(** ** The blocks found by [get_matching_blocks] *)

Section MatchingBlocksFacts.
Import Difflib Layout.
Context {A : Type} `{Countable A}.
Variable self : matcher (A := A).

Lemma apart_sym r1 r2 : apart r1 r2 -> apart r2 r1.
Proof. unfold apart. tauto. Qed.

Lemma apart_sub_rect r s x : sub_rect r s -> apart r x -> apart s x.
Proof. unfold sub_rect, apart, before. lia. Qed.

Lemma pairwise_apart_Permutation l1 l2 :
  l1 ≡ₚ l2 -> pairwise_apart l1 -> pairwise_apart l2.
Proof.
  induction 1 as [|x l1 l2 Hp IH|x y l|l1 l2 l3 _ IH1 _ IH2]; simpl.
  - auto.
  - intros [Hx Hl]. split; [|auto]. now rewrite <- Hp.
  - intros [Hy [Hx Hl]]. apply Forall_cons in Hy as [Hyx Hy].
    repeat split; auto. constructor; auto using apart_sym.
  - auto.
Qed.

(** A region may be replaced by parts of it that are pairwise apart. *)
Lemma pairwise_apart_refine r subs rest :
  pairwise_apart (r :: rest) ->
  Forall (sub_rect r) subs -> pairwise_apart subs ->
  pairwise_apart (subs ++ rest).
Proof.
  intros [Hr Hrest]. induction subs as [|s subs IH]; simpl.
  - auto.
  - intros Hsub [Hs Hsubs]. apply Forall_cons in Hsub as [Hs1 Hsub].
    split; [|auto]. apply Forall_app. split; [exact Hs|].
    eapply Forall_impl; [exact Hr|]. intros x. now apply apart_sub_rect.
Qed.

Lemma weight_cons alo ahi blo bhi q :
  weight ((alo, ahi, blo, bhi) :: q) = 1 + 2 * (ahi - alo) + weight q.
Proof. reflexivity. Qed.

Lemma matching_loop_inv gas : forall queue blocks,
  weight queue <= gas -> loop_inv self queue blocks ->
  exists blocks',
    matching_loop self gas queue blocks = Some blocks'
    /\ loop_inv self [] blocks'.
Proof.
  induction gas as [|gas IH]; intros queue blocks Hw Hinv.
  - destruct queue as [|r q].
    + simpl. eauto.
    + destruct r as [[[alo ahi] blo] bhi]. rewrite weight_cons in Hw. lia.
  - destruct queue as [|[[[alo ahi] blo] bhi] q]; [simpl; eauto|].
    destruct Hinv as (Hpw & Hq & Hb).
    apply Forall_cons in Hq as [Hr Hq].
    unfold within in Hr. simpl in Hr.
    destruct (find_longest_match_in_region self alo ahi blo bhi)
      as ([[i j] k] & Hflm & Hin); [lia | lia |].
    unfold in_region in Hin. simpl in Hin.
    cbn [matching_loop]. rewrite Hflm. cbn [mbind option_bind].
    rewrite weight_cons in Hw.
    destruct k as [|k'].
    + apply IH; [lia|]. split_and!; [apply Hpw | exact Hq | exact Hb].
    + set (k := S k') in *.
      set (qL := if (alo <? i) && (blo <? j)
                 then (alo, i, blo, j) :: q else q).
      set (qR := if (i + k <? ahi) && (j + k <? bhi)
                 then (i + k, ahi, j + k, bhi) :: qL else qL).
      assert (HsubL : sub_rect (alo, ahi, blo, bhi) (alo, i, blo, j))
        by (unfold sub_rect; simpl; lia).
      assert (HsubR : sub_rect (alo, ahi, blo, bhi) (i + k, ahi, j + k, bhi))
        by (unfold sub_rect; simpl; lia).
      assert (HsubM : sub_rect (alo, ahi, blo, bhi) (rect_of (i, j, k)))
        by (unfold sub_rect, rect_of; simpl; lia).
      assert (HLM : apart (alo, i, blo, j) (rect_of (i, j, k)))
        by (left; unfold before, rect_of; simpl; lia).
      assert (HLR : apart (alo, i, blo, j) (i + k, ahi, j + k, bhi))
        by (left; unfold before; simpl; lia).
      assert (HRM : apart (i + k, ahi, j + k, bhi) (rect_of (i, j, k)))
        by (right; unfold before, rect_of; simpl; lia).
      assert (HwL : within (length (seq_a self)) (length (seq_b self))
                      (alo, i, blo, j))
        by (unfold within; simpl; lia).
      assert (HwR : within (length (seq_a self)) (length (seq_b self))
                      (i + k, ahi, j + k, bhi))
        by (unfold within; simpl; lia).
      assert (HwM : within (length (seq_a self)) (length (seq_b self))
                      (rect_of (i, j, k)))
        by (unfold within, rect_of; simpl; lia).
      assert (Hk : 0 < k) by (subst k; lia).
      clearbody k.
      apply IH.
      * subst qR qL.
        destruct ((alo <? i) && (blo <? j));
          destruct ((i + k <? ahi) && (j + k <? bhi));
          rewrite ?weight_cons; lia.
      * split_and!.
        -- rewrite map_app. simpl.
           subst qR qL.
           destruct ((alo <? i) && (blo <? j));
             destruct ((i + k <? ahi) && (j + k <? bhi)).
           ++ apply (pairwise_apart_Permutation
                       ([(i + k, ahi, j + k, bhi); (alo, i, blo, j);
                         rect_of (i, j, k)] ++ q ++ map rect_of blocks)).
              { simpl. do 2 constructor. rewrite app_assoc.
                apply Permutation_cons_append. }
              eapply pairwise_apart_refine; [exact Hpw | |].
              { forall_list. }
              { simpl. split_and!; forall_list; auto using apart_sym. }
           ++ apply (pairwise_apart_Permutation
                       ([(alo, i, blo, j); rect_of (i, j, k)]
                          ++ q ++ map rect_of blocks)).
              { simpl. constructor. rewrite app_assoc.
                apply Permutation_cons_append. }
              eapply pairwise_apart_refine; [exact Hpw | |].
              { forall_list. }
              { simpl. split_and!; forall_list; auto using apart_sym. }
           ++ apply (pairwise_apart_Permutation
                       ([(i + k, ahi, j + k, bhi); rect_of (i, j, k)]
                          ++ q ++ map rect_of blocks)).
              { simpl. constructor. rewrite app_assoc.
                apply Permutation_cons_append. }
              eapply pairwise_apart_refine; [exact Hpw | |].
              { forall_list. }
              { simpl. split_and!; forall_list; auto using apart_sym. }
           ++ apply (pairwise_apart_Permutation
                       ([rect_of (i, j, k)] ++ q ++ map rect_of blocks)).
              { simpl. rewrite app_assoc.
                apply Permutation_cons_append. }
              eapply pairwise_apart_refine; [exact Hpw | |].
              { forall_list. }
              { simpl. split_and!; forall_list; auto. }
        -- subst qR qL.
           destruct ((alo <? i) && (blo <? j));
             destruct ((i + k <? ahi) && (j + k <? bhi));
             forall_list.
        -- apply Forall_app. split; [exact Hb|].
           constructor; [|constructor]. split; assumption.
Qed.

End MatchingBlocksFacts.

(** ** From the sorted blocks to the opcodes *)

Section OpcodeFacts.
Import Difflib Layout.
Context {A : Type} `{Countable A}.
Variable self : matcher (A := A).

Local Abbreviation la := (length (seq_a self)).
Local Abbreviation lb := (length (seq_b self)).

Lemma Match_le_spec (x y : Match) :
  Is_true (Match_le x y) <->
  x.1.1 < y.1.1
  \/ x.1.1 = y.1.1 /\ (x.1.2 < y.1.2 \/ x.1.2 = y.1.2 /\ x.2 <= y.2).
Proof.
  destruct x as [[i1 j1] k1], y as [[i2 j2] k2]. unfold Match_le. simpl.
  rewrite Is_true_true, orb_true_iff, !andb_true_iff, orb_true_iff,
    andb_true_iff, !Nat.ltb_lt, !Nat.eqb_eq, Nat.leb_le.
  reflexivity.
Qed.

Local Instance Match_le_trans :
  Transitive (fun x y : Match => Is_true (Match_le x y)).
Proof. intros x y z. rewrite !Match_le_spec. lia. Qed.

Local Instance Match_le_total :
  Total (fun x y : Match => Is_true (Match_le x y)).
Proof. intros x y. rewrite !Match_le_spec. lia. Qed.

Lemma chain_weaken i j i' j' l :
  i' <= i -> j' <= j -> chain la lb i j l -> chain la lb i' j' l.
Proof. destruct l; simpl; intuition lia. Qed.

Lemma chain_drop na : forall i j x rest,
  chain la lb i j (na ++ x :: rest) -> chain la lb i j (na ++ rest).
Proof.
  induction na as [|y na IH]; intros i j x rest; simpl.
  - intros (Hi & Hj & Hc). eapply chain_weaken; [| |exact Hc]; lia.
  - intros (Hi & Hj & Hc). eauto.
Qed.

Lemma chain_merge na : forall i j i1 j1 k1 k2 rest,
  chain la lb i j (na ++ (i1, j1, k1) :: (i1 + k1, j1 + k1, k2) :: rest) ->
  chain la lb i j (na ++ (i1, j1, k1 + k2) :: rest).
Proof.
  induction na as [|y na IH]; intros i j i1 j1 k1 k2 rest; simpl.
  - intros (Hi & Hj & _ & _ & Hc). split_and!; [lia | lia |].
    eapply chain_weaken; [| |exact Hc]; lia.
  - intros (Hi & Hj & Hc). eauto.
Qed.

Lemma chain_sentinel l : forall i j,
  chain la lb i j l -> chain la lb i j (l ++ [(la, lb, 0)]).
Proof.
  induction l as [|x l IH]; intros i j; simpl.
  - lia.
  - intros (Hi & Hj & Hc). auto.
Qed.

(** Sorted blocks that are pairwise apart follow one another. *)
Lemma sorted_apart_chain l : forall i j,
  StronglySorted (fun x y : Match => Is_true (Match_le x y)) l ->
  pairwise_apart (map rect_of l) ->
  Forall (fun m : Match => 0 < m.2 /\ within la lb (rect_of m)) l ->
  Forall (fun m : Match => i <= m.1.1 /\ j <= m.1.2) l ->
  i <= la -> j <= lb ->
  chain la lb i j l.
Proof.
  induction l as [|x l IH]; intros i j Hs Hp Hw Hlo Hi Hj.
  - simpl. lia.
  - apply StronglySorted_inv in Hs as [Hs Hx].
    destruct Hp as [Hax Hp].
    apply (proj1 (List.Forall_map rect_of _ l)) in Hax.
    apply Forall_cons in Hw as [[Hk Hwx] Hw].
    apply Forall_cons in Hlo as [[Hix Hjx] Hlo].
    unfold within, rect_of in Hwx. simpl in Hwx.
    simpl. split_and!; [exact Hix | exact Hjx |].
    apply IH; try assumption; [|lia|lia].
    rewrite Forall_forall in Hx, Hax, Hw |- *.
    intros y Hy. specialize (Hx y Hy). specialize (Hax y Hy).
    destruct (Hw y Hy) as [Hky _].
    apply Match_le_spec in Hx.
    unfold apart, before, rect_of in Hax. simpl in Hax. lia.
Qed.

Lemma collapse_fold rest : forall cur na cur' na',
  chain la lb 0 0 (na ++ cur :: rest) ->
  fold_left collapse_step rest (cur, na) = (cur', na') ->
  chain la lb 0 0 (na' ++ [cur']).
Proof.
  induction rest as [|blk rest IH]; intros [[i1 j1] k1] na cur' na' Hc.
  - intros [= <- <-]. exact Hc.
  - destruct blk as [[i2 j2] k2]. cbn [fold_left collapse_step].
    destruct ((i1 + k1 =? i2) && (j1 + k1 =? j2)) eqn:E.
    + apply andb_true_iff in E as [E1 E2].
      apply Nat.eqb_eq in E1, E2. subst i2 j2.
      apply IH. now apply chain_merge.
    + destruct k1 as [|k1'].
      * apply IH. eapply chain_drop. exact Hc.
      * apply IH. rewrite <- app_assoc. exact Hc.
Qed.

Lemma collapse_chain l :
  chain la lb 0 0 l -> chain la lb 0 0 (collapse l).
Proof.
  intros Hc. unfold collapse.
  assert (H0 : chain la lb 0 0 ([] ++ (0, 0, 0) :: l)) by (simpl; auto with lia).
  destruct (fold_left collapse_step l (0, 0, 0, [])) as [[[i1 j1] k1] na] eqn:E.
  eapply collapse_fold in E; [|exact H0].
  destruct k1; [|exact E].
  rewrite <- (app_nil_r na). eapply chain_drop. exact E.
Qed.

(** [get_matching_blocks] returns, and its blocks, the sentinel
    included, follow one another from [(0, 0)]. *)
Lemma get_matching_blocks_chain :
  exists blocks,
    get_matching_blocks self = Some (blocks ++ [(la, lb, 0)])
    /\ chain la lb 0 0 (blocks ++ [(la, lb, 0)]).
Proof.
  unfold get_matching_blocks.
  destruct (matching_loop_inv self (2 * la + 1) [(0, la, 0, lb)] [])
    as (blocks & -> & Hp & _ & Hb).
  - rewrite weight_cons. unfold weight. simpl. lia.
  - split_and!; try forall_list; simpl; auto.
    unfold within. simpl. lia.
  - cbn [mbind option_bind]. eexists. split; [reflexivity|].
    apply chain_sentinel, collapse_chain.
    unfold sort_blocks.
    set (R := fun x y : Match => Is_true (Match_le x y)).
    pose proof (merge_sort_Permutation R blocks) as Hperm.
    apply sorted_apart_chain.
    + apply StronglySorted_merge_sort; apply _.
    + eapply pairwise_apart_Permutation; [|exact Hp].
      simpl. symmetry. now apply Permutation_map.
    + now rewrite Hperm.
    + apply Forall_forall. intros; lia.
    + lia.
    + lia.
Qed.

Lemma tiles_app o1 : forall i j i1 j1 o2 i2 j2,
  tiles i j o1 i1 j1 -> tiles i1 j1 o2 i2 j2 ->
  tiles i j (o1 ++ o2) i2 j2.
Proof.
  induction o1 as [|[[[[tg a1] a2] b1] b2] o1 IH];
    intros i j i1 j1 o2 i2 j2; simpl.
  - intros [-> ->]. auto.
  - intros (? & ? & ? & ? & ? & Ht) Ht2. split_and!; eauto.
Qed.

Lemma opcode_step_tiles i j answer (m : Match) :
  i <= m.1.1 -> j <= m.1.2 ->
  exists ops,
    opcode_step (i, j, answer) m
    = (m.1.1 + m.2, m.1.2 + m.2, answer ++ ops)
    /\ tiles i j ops (m.1.1 + m.2) (m.1.2 + m.2).
Proof.
  destruct m as [[ai bj] size]. simpl. intros Hi Hj.
  assert (Heq : exists o2,
             match size with
             | 0 => ([] : list opcode)
             | S _ => [(tag_equal, ai, ai + size, bj, bj + size)]
             end = o2
             /\ tiles ai bj o2 (ai + size) (bj + size)).
  { destruct size; eexists; (split; [reflexivity|]); simpl; lia. }
  destruct Heq as (o2 & Ho2 & Ht2).
  assert (Hgap : exists o1,
             (if (i <? ai) && (j <? bj)
              then answer ++ [(tag_replace, i, ai, j, bj)]
              else if i <? ai then answer ++ [(tag_delete, i, ai, j, bj)]
              else if j <? bj then answer ++ [(tag_insert, i, ai, j, bj)]
              else answer) = answer ++ o1
             /\ tiles i j o1 ai bj).
  { destruct (i <? ai) eqn:E1; destruct (j <? bj) eqn:E2; simpl;
      try apply Nat.ltb_lt in E1; try apply Nat.ltb_lt in E2;
      try apply Nat.ltb_ge in E1; try apply Nat.ltb_ge in E2.
    - eexists; split; [reflexivity|]. simpl. lia.
    - eexists; split; [reflexivity|]. simpl. lia.
    - eexists; split; [reflexivity|]. simpl. lia.
    - exists []. rewrite app_nil_r. split; [reflexivity|]. simpl. lia. }
  destruct Hgap as (o1 & -> & Ht1).
  exists (o1 ++ o2). split.
  - rewrite <- Ho2. destruct size; [now rewrite app_nil_r|].
    now rewrite app_assoc.
  - eapply tiles_app; eassumption.
Qed.

Lemma opcodes_fold_tiles blocks : forall i j answer,
  chain la lb i j blocks ->
  exists ops i' j',
    fold_left opcode_step blocks (i, j, answer) = (i', j', answer ++ ops)
    /\ tiles i j ops i' j'.
Proof.
  induction blocks as [|m blocks IH]; intros i j answer;
    cbn [fold_left chain].
  - intros _. exists [], i, j. rewrite app_nil_r. simpl. auto.
  - intros (Hi & Hj & Hc).
    destruct (opcode_step_tiles i j answer m Hi Hj) as (o1 & Hstep & Ht1).
    rewrite Hstep.
    destruct (IH _ _ (answer ++ o1) Hc) as (o2 & i' & j' & -> & Ht2).
    exists (o1 ++ o2), i', j'. rewrite app_assoc. split; [reflexivity|].
    eapply tiles_app; eassumption.
Qed.

Lemma opcodes_fold_end bl (m : Match) st i' j' answer :
  fold_left opcode_step (bl ++ [m]) st = (i', j', answer) ->
  i' = m.1.1 + m.2 /\ j' = m.1.2 + m.2.
Proof.
  rewrite fold_left_app. simpl.
  destruct (fold_left opcode_step bl st) as [[i j] ans].
  destruct m as [[ai bj] size]. simpl. intros [= <- <- _]. auto.
Qed.

(** [get_opcodes] returns, and its opcodes tile both sequences from
    their first to their last position. *)
Lemma get_opcodes_tiles :
  exists ops, get_opcodes self = Some ops /\ tiles 0 0 ops la lb.
Proof.
  unfold get_opcodes.
  destruct get_matching_blocks_chain as (blocks & -> & Hc).
  cbn [mbind option_bind]. eexists. split; [reflexivity|].
  unfold opcodes_of_blocks.
  destruct (opcodes_fold_tiles _ 0 0 [] Hc) as (ops & i' & j' & Hf & Ht).
  destruct (opcodes_fold_end _ _ _ _ _ _ Hf) as [-> ->].
  rewrite Hf. simpl in Ht |- *. rewrite !Nat.add_0_r in Ht. exact Ht.
Qed.

End OpcodeFacts.

(** ** The classifier *)

Section ClassifierFacts.
Import Difflib Layout Frontend.

Lemma append_range_slice words n : forall lo st d,
  lo + n <= length words ->
  append_range words (seq lo n) st d
  = Some (d ++ tagged st (slice lo (lo + n) words)).
Proof.
  unfold slice, tagged.
  induction n as [|n IH]; intros lo st d Hlen.
  - replace (lo + 0 - lo) with 0 by lia. simpl. now rewrite app_nil_r.
  - cbn [seq append_range].
    destruct (lookup_lt_is_Some_2 words lo) as [w Hw]; [lia|].
    rewrite Hw. cbn [mbind option_bind].
    rewrite IH by lia. f_equal.
    rewrite (drop_S _ _ _ Hw).
    replace (lo + S n - lo) with (S n) by lia.
    replace (S lo + n - S lo) with n by lia.
    simpl. now rewrite <- app_assoc.
Qed.

Lemma append_range_op words lo hi st d :
  lo <= hi <= length words ->
  append_range words (seq lo (hi - lo)) st d
  = Some (d ++ tagged st (slice lo hi words)).
Proof.
  intros Hr. rewrite append_range_slice by lia.
  now replace (lo + (hi - lo)) with hi by lia.
Qed.

Lemma classify_step_parts a b d1 d2 op :
  valid_op (length a) (length b) op ->
  classify_step a b (d1, d2) op
  = Some (d1 ++ original_part a op, d2 ++ revised_part b op).
Proof.
  destruct op as [[[[tg i1] i2] j1] j2]. intros [Hi Hj].
  unfold classify_step, original_part, revised_part.
  destruct tg; rewrite ?(append_range_op a) by lia;
    cbn [mbind option_bind]; rewrite ?(append_range_op b) by lia;
    cbn [mbind option_bind]; rewrite ?app_nil_r; reflexivity.
Qed.

Lemma classify_parts a b ops : forall d1 d2,
  Forall (valid_op (length a) (length b)) ops ->
  classify a b ops (d1, d2)
  = Some (d1 ++ flat_map (original_part a) ops,
          d2 ++ flat_map (revised_part b) ops).
Proof.
  induction ops as [|op ops IH]; intros d1 d2 Hv.
  - simpl. now rewrite !app_nil_r.
  - apply Forall_cons in Hv as [Hop Hv].
    cbn [classify]. rewrite classify_step_parts by exact Hop.
    cbn [mbind option_bind]. rewrite IH by exact Hv.
    simpl. now rewrite <- !app_assoc.
Qed.

Lemma tiles_le ops : forall i j i' j',
  tiles i j ops i' j' -> i <= i' /\ j <= j'.
Proof.
  induction ops as [|[[[[tg a1] a2] b1] b2] ops IH]; intros i j i' j'; simpl.
  - lia.
  - intros (-> & -> & ? & ? & _ & Ht). apply IH in Ht. lia.
Qed.

Lemma tiles_valid la lb ops : forall i j i' j',
  tiles i j ops i' j' -> i' <= la -> j' <= lb ->
  Forall (valid_op la lb) ops.
Proof.
  induction ops as [|[[[[tg a1] a2] b1] b2] ops IH]; intros i j i' j'; simpl.
  - constructor.
  - intros (-> & -> & ? & ? & _ & Ht) Hi Hj.
    pose proof (tiles_le _ _ _ _ _ Ht).
    constructor; [simpl; lia | eauto].
Qed.

Lemma slice_app {X : Type} (l : list X) i k n :
  i <= k <= n -> slice i k l ++ slice k n l = slice i n l.
Proof.
  intros Hr. unfold slice.
  replace (drop k l) with (drop (k - i) (drop i l))
    by (rewrite drop_drop; f_equal; lia).
  rewrite take_take_drop. f_equal. lia.
Qed.

Lemma slice_nil {X : Type} (l : list X) i : slice i i l = [].
Proof. unfold slice. now rewrite Nat.sub_diag. Qed.

Lemma slice_all {X : Type} (l : list X) : slice 0 (length l) l = l.
Proof. unfold slice. rewrite Nat.sub_0_r. simpl. apply firstn_all. Qed.

Lemma slice_length {X : Type} (l : list X) i k :
  i <= k <= length l -> length (slice i k l) = k - i.
Proof.
  intros Hr. unfold slice. rewrite length_take, length_drop. lia.
Qed.

Lemma tagged_words st ws : map fst (tagged st ws) = ws.
Proof.
  unfold tagged. rewrite map_map. simpl. apply map_id.
Qed.

(** The words of the two diffs are the tokens that the opcodes tile. *)
Lemma parts_words a b ops : forall i j i' j',
  tiles i j ops i' j' ->
  map fst (flat_map (original_part a) ops) = slice i i' a
  /\ map fst (flat_map (revised_part b) ops) = slice j j' b.
Proof.
  induction ops as [|[[[[tg a1] a2] b1] b2] ops IH]; intros i j i' j'.
  - simpl. intros [-> ->]. now rewrite !slice_nil.
  - cbn [tiles flat_map]. intros (-> & -> & Hi & Hj & Htg & Ht).
    pose proof (tiles_le _ _ _ _ _ Ht) as [Hi' Hj'].
    destruct (IH _ _ _ _ Ht) as [IHa IHb].
    rewrite !map_app, IHa, IHb.
    rewrite <- (slice_app a i a2 i') by lia.
    rewrite <- (slice_app b j b2 j') by lia.
    unfold original_part, revised_part.
    destruct tg; rewrite ?tagged_words; try subst a2; try subst b2;
      rewrite ?slice_nil; auto.
Qed.

Lemma count_status_app st d1 d2 :
  count_status st (d1 ++ d2) = count_status st d1 + count_status st d2.
Proof. unfold count_status. now rewrite filter_app, length_app. Qed.

Lemma count_status_tagged st st' ws :
  count_status st (tagged st' ws)
  = if decide (st' = st) then length ws else 0.
Proof.
  unfold count_status, tagged.
  induction ws as [|w ws IH]; simpl.
  - now destruct (decide (st' = st)).
  - rewrite filter_cons. simpl.
    destruct (decide (st' = st)); simpl; lia.
Qed.

(** The counts of the change summary against the spans of the opcodes,
    and the lengths of the diffs against the spans on each side. *)
Lemma parts_counts a b ops :
  Forall (valid_op (length a) (length b)) ops ->
  count_status added (flat_map (revised_part b) ops)
    = span_revised tag_insert ops
  /\ count_status modified (flat_map (revised_part b) ops)
    = span_revised tag_replace ops
  /\ count_status deleted (flat_map (original_part a) ops)
    = span_original tag_delete ops
  /\ count_status modified (flat_map (original_part a) ops)
    = span_original tag_replace ops
  /\ length (flat_map (original_part a) ops)
    = span_original tag_equal ops + span_original tag_delete ops
      + span_original tag_replace ops
  /\ length (flat_map (revised_part b) ops)
    = span_revised tag_equal ops + span_revised tag_insert ops
      + span_revised tag_replace ops.
Proof.
  unfold span_original, span_revised.
  induction 1 as [|[[[[tg i1] i2] j1] j2] ops [Hi Hj] _ IH].
  - split_and!; reflexivity.
  - destruct IH as (IH1 & IH2 & IH3 & IH4 & IH5 & IH6).
    cbn [flat_map map sum_list sum_list_with].
    rewrite !count_status_app, !length_app, IH1, IH2, IH3, IH4, IH5, IH6.
    unfold original_part, revised_part.
    destruct tg; rewrite ?count_status_tagged; unfold tagged;
      rewrite ?length_map, ?slice_length by lia; simpl; lia.
Qed.

Lemma parts_statuses a b ops :
  Forall (fun ws : str * status => ws.2 <> added)
         (flat_map (original_part a) ops)
  /\ Forall (fun ws : str * status => ws.2 <> deleted)
            (flat_map (revised_part b) ops).
Proof.
  induction ops as [|[[[[tg i1] i2] j1] j2] ops [IH1 IH2]].
  - split; constructor.
  - cbn [flat_map]. rewrite !Forall_app. split_and!; try assumption;
      unfold original_part, revised_part, tagged;
      destruct tg; try apply Forall_nil_2;
      apply Forall_map, Forall_forall; intros; simpl; discriminate.
Qed.

(** [generate_word_diff] returns, with the parts of the opcodes that
    [get_opcodes] gives, in order. *)
Lemma generate_word_diff_parts original revised :
  exists ops,
    word_opcodes original revised = Some ops
    /\ tiles 0 0 ops (length (Tokenizer.findall original))
             (length (Tokenizer.findall revised))
    /\ generate_word_diff original revised
       = Some (flat_map (original_part (Tokenizer.findall original)) ops,
               flat_map (revised_part (Tokenizer.findall revised)) ops).
Proof.
  unfold word_opcodes, generate_word_diff.
  destruct (get_opcodes_tiles
              (SequenceMatcher (Tokenizer.findall original)
                 (Tokenizer.findall revised))) as (ops & Hops & Ht).
  simpl in Ht. exists ops. rewrite Hops. split_and!; auto.
  cbn [mbind option_bind]. rewrite classify_parts; [reflexivity|].
  eapply tiles_valid; [exact Ht | lia | lia].
Qed.

End ClassifierFacts.

(** ** The index [b2j] *)

Section IndexFacts.
Import Difflib Layout.
Context {A : Type} `{Countable A}.

Lemma index_b_snoc (b : list A) y :
  index_b (b ++ [y]) = setdefault_append (index_b b) (length b, y).
Proof.
  unfold index_b, enumerate.
  rewrite imap_app, fold_left_app. simpl.
  now rewrite Nat.add_0_r.
Qed.

Lemma index_b_lookup (b : list A) x :
  (index_b b !! x = None -> forall j, b !! j <> Some x)
  /\ (forall js, index_b b !! x = Some js -> occurrences b x js).
Proof.
  induction b as [|y b [IHn IHs]] using rev_ind.
  - split.
    + intros _ j. now rewrite lookup_nil.
    + unfold index_b. simpl. rewrite lookup_empty. discriminate.
  - rewrite index_b_snoc. unfold setdefault_append. simpl.
    destruct (decide (y = x)) as [->|Hne].
    + rewrite lookup_insert_eq. split; [discriminate|].
      intros js [= <-].
      assert (Hold : occurrences b x (default [] (index_b b !! x))).
      { destruct (index_b b !! x) as [old|] eqn:E; simpl.
        - now apply IHs.
        - split; [constructor|]. intros j. rewrite elem_of_nil.
          split; [tauto|]. intros Hj. now apply (IHn eq_refl j). }
      destruct Hold as [Hsort Hmem]. split.
      * apply StronglySorted_app_2; [| exact Hsort | repeat constructor].
        intros j1 j2 Hj1 Hj2. apply list_elem_of_singleton in Hj2 as ->.
        apply Hmem in Hj1. now apply lookup_lt_Some in Hj1.
      * intros j. rewrite elem_of_app, list_elem_of_singleton, Hmem.
        destruct (decide (j < length b)) as [Hlt|Hge].
        -- rewrite lookup_app_l by exact Hlt. split; [|tauto].
           intros [Hj|Hj]; [exact Hj|lia].
        -- rewrite lookup_app_r by lia. split.
           ++ intros [Hj| ->].
              ** apply lookup_lt_Some in Hj. lia.
              ** now rewrite Nat.sub_diag.
           ++ intros Hj. destruct (j - length b) as [|d] eqn:Ed.
              ** right. lia.
              ** simpl in Hj. now rewrite lookup_nil in Hj.
    + rewrite lookup_insert_ne by exact Hne.
      assert (Hiff : forall j, (b ++ [y]) !! j = Some x <-> b !! j = Some x).
      { intros j. destruct (decide (j < length b)) as [Hlt|Hge].
        - now rewrite lookup_app_l by exact Hlt.
        - rewrite lookup_app_r by lia. split.
          + destruct (j - length b) as [|d]; simpl.
            * intros [= ->]. congruence.
            * now rewrite lookup_nil.
          + intros Hj. apply lookup_lt_Some in Hj. lia. }
      split.
      * intros Hn j. rewrite Hiff. now apply IHn.
      * intros js Hjs. destruct (IHs js Hjs) as [Hsort Hmem].
        split; [exact Hsort|]. intros j. now rewrite Hiff.
Qed.

(** Every list that the matcher keeps in [b2j] holds the positions of
    its key in [b], in increasing order. *)
Lemma SequenceMatcher_b2j (a b : list A) x js :
  b2j (SequenceMatcher a b) !! x = Some js -> occurrences b x js.
Proof.
  simpl. unfold purge. intros Hl.
  apply map_lookup_filter_Some in Hl as [Hl _].
  now apply index_b_lookup.
Qed.

End IndexFacts.

(** ** A sequence aligned with itself *)

Section IdentityFacts.
Import Difflib Layout.
Context {A : Type} `{Countable A}.
Variable self : matcher (A := A).
Hypothesis Hab : seq_a self = seq_b self.
Hypothesis Hocc :
  forall x js, b2j self !! x = Some js -> occurrences (seq_b self) x js.
Hypothesis Hjunk : bjunk self = ∅.

Local Abbreviation n := (length (seq_b self)).

Lemma runlen_S_key m x :
  seq_b self !! m = Some x -> is_key self x = true ->
  runlen self (S m) = S (runlen self m).
Proof. intros Hm Hk. simpl. now rewrite Hm, Hk. Qed.

Lemma runlen_S_nokey m x :
  seq_b self !! m = Some x -> is_key self x = false ->
  runlen self (S m) = 0.
Proof. intros Hm Hk. simpl. now rewrite Hm, Hk. Qed.

(** One row of the scan, at a key [x] found at position [i]: every
    match off the diagonal is no longer than a run already seen. *)
Lemma scan_row_diag i x j2len :
  seq_b self !! i = Some x -> is_key self x = true ->
  (forall j v, j2len !! j = Some v -> v <= runlen self (Nat.min i (S j))) ->
  j2lenget j2len i = runlen self i ->
  forall rem newj2len best m' best',
  StronglySorted lt rem ->
  (forall j, j ∈ rem -> seq_b self !! j = Some x) ->
  (forall j v, newj2len !! j = Some v ->
               v <= runlen self (Nat.min (S i) (S j))) ->
  best.1.1 = best.1.2 ->
  (forall i', i' <= i -> runlen self i' <= best.2) ->
  (i ∈ rem
   \/ (Forall (lt i) rem /\ newj2len !! i = Some (runlen self (S i))
       /\ runlen self (S i) <= best.2)) ->
  scan_row 0 n i j2len rem newj2len best = (m', best') ->
  (forall j v, m' !! j = Some v -> v <= runlen self (Nat.min (S i) (S j)))
  /\ m' !! i = Some (runlen self (S i))
  /\ best'.1.1 = best'.1.2
  /\ forall i', i' <= S i -> runlen self i' <= best'.2.
Proof.
  intros Hxi Hkey Hold Hget.
  induction rem as [|j rem IH];
    intros newj2len best m' best' Hsort Hmem Hnew Hdiag Hbest Hcase.
  - intros [= <- <-].
    destruct Hcase as [Hin|(_ & Hi & Hr)]; [now apply elem_of_nil in Hin|].
    split_and!; try assumption.
    intros i' Hi'. destruct (decide (i' = S i)) as [->|]; [exact Hr|].
    apply Hbest. lia.
  - cbn [scan_row].
    assert (Hxj : seq_b self !! j = Some x) by (apply Hmem; left).
    pose proof (lookup_lt_Some _ _ _ Hxj) as Hjn.
    replace (j <? 0) with false by (symmetry; apply Nat.ltb_ge; lia).
    replace (n <=? j) with false by (symmetry; apply Nat.leb_gt; lia).
    set (k := j2lenget j2len j + 1).
    apply StronglySorted_inv in Hsort as [Hsort Hjrem].
    assert (Hmin : seq_b self !! (Nat.min i j) = Some x).
    { destruct (Nat.min_spec i j) as [[_ ->]|[_ ->]]; assumption. }
    assert (Hk : k <= runlen self (Nat.min (S i) (S j))).
    { rewrite <- Nat.succ_min_distr.
      rewrite (runlen_S_key _ _ Hmin Hkey). subst k.
      destruct j as [|j']; simpl; [lia|].
      destruct (j2len !! j') as [v|] eqn:Ev; simpl; [|lia].
      apply Hold in Ev. lia. }
    assert (Hnew' : forall j0 v, <[j:=k]> newj2len !! j0 = Some v ->
                      v <= runlen self (Nat.min (S i) (S j0))).
    { intros j0 v. rewrite lookup_insert. case_decide as Hj0.
      - intros [= <-]. now subst j0.
      - apply Hnew. }
    assert (Hmem' : forall j0, j0 ∈ rem -> seq_b self !! j0 = Some x).
    { intros j0 Hj0. apply Hmem. now right. }
    destruct (lt_eq_lt_dec j i) as [[Hlt| ->]|Hgt].
    + (* left of the diagonal *)
      destruct Hcase as [Hin|(Hall & _)];
        [|apply Forall_cons in Hall as [? _]; lia].
      apply elem_of_cons in Hin as [->|Hin]; [lia|].
      assert (Hkb : k <= best.2).
      { rewrite Nat.min_r in Hk by lia.
        etransitivity; [exact Hk|]. apply Hbest. lia. }
      replace (best.2 <? k) with false by (symmetry; apply Nat.ltb_ge; lia).
      apply IH; auto.
    + (* on the diagonal *)
      assert (Hki : k = runlen self (S i)).
      { subst k. rewrite Hget, (runlen_S_key _ _ Hxi Hkey). lia. }
      apply IH; auto.
      * destruct (best.2 <? k); cbn [fst snd]; [reflexivity | exact Hdiag].
      * intros i' Hi'. specialize (Hbest i' Hi').
        destruct (best.2 <? k) eqn:E; cbn [fst snd]; [|exact Hbest].
        apply Nat.ltb_lt in E. lia.
      * right. split_and!.
        -- exact Hjrem.
        -- rewrite lookup_insert_eq. now rewrite Hki.
        -- destruct (best.2 <? k) eqn:E; cbn [fst snd]; [lia|].
           apply Nat.ltb_ge in E. lia.
    + (* right of the diagonal *)
      destruct Hcase as [Hin|(Hall & Hi & Hr)].
      { apply elem_of_cons in Hin as [->|Hin]; [lia|].
        rewrite Forall_forall in Hjrem. specialize (Hjrem _ Hin). lia. }
      assert (Hkb : k <= best.2).
      { rewrite Nat.min_l in Hk by lia. lia. }
      replace (best.2 <? k) with false by (symmetry; apply Nat.ltb_ge; lia).
      apply IH; auto.
      right. apply Forall_cons in Hall as [_ Hall].
      split_and!; [exact Hall | | exact Hr].
      rewrite lookup_insert_ne by lia. exact Hi.
Qed.

Lemma scan_rows_diag cnt : forall i j2len best best',
  diag_inv self i j2len best ->
  scan_rows self 0 n (seq i cnt) j2len best = Some best' ->
  best'.1.1 = best'.1.2.
Proof.
  induction cnt as [|cnt IH]; intros i j2len best best' Hinv.
  - intros [= <-]. apply Hinv.
  - cbn [seq scan_rows]. rewrite Hab.
    destruct (seq_b self !! i) as [x|] eqn:Hx; [|discriminate].
    cbn [mbind option_bind].
    destruct (scan_row 0 n i j2len (default [] (b2j self !! x)) ∅ best)
      as [m' best1] eqn:Erow.
    apply IH.
    destruct Hinv as (Hold & Hget & Hdiag & Hbest).
    destruct (is_key self x) eqn:Hkey.
    + unfold is_key in Hkey.
      destruct (b2j self !! x) as [js|] eqn:Hjs; [|discriminate].
      destruct (Hocc _ _ Hjs) as [Hsort Hmem]. simpl in Erow.
      assert (Hkey' : is_key self x = true)
        by (unfold is_key; now rewrite Hjs).
      destruct (scan_row_diag i x j2len Hx Hkey' Hold Hget
                  js ∅ best m' best1) as (Ha & Hb & Hc & Hd); auto.
      * intros j Hj. now apply Hmem.
      * intros j v. rewrite lookup_empty. discriminate.
      * left. now apply Hmem.
      * split_and!; auto. simpl. now rewrite Hb.
    + unfold is_key in Hkey.
      destruct (b2j self !! x) as [js|] eqn:Hjs; [discriminate|].
      simpl in Erow. injection Erow as <- <-.
      assert (Hkey' : is_key self x = false)
        by (unfold is_key; now rewrite Hjs).
      split_and!.
      * intros j v. rewrite lookup_empty. discriminate.
      * simpl. rewrite lookup_empty. simpl.
        symmetry. eapply runlen_S_nokey; eassumption.
      * exact Hdiag.
      * intros i' Hi'. destruct (decide (i' = S i)) as [->|].
        -- rewrite (runlen_S_nokey _ _ Hx Hkey'). lia.
        -- apply Hbest. lia.
Qed.

Lemma isbjunk_false y : isbjunk self y = false.
Proof.
  unfold isbjunk. rewrite Hjunk. apply bool_decide_eq_false.
  apply not_elem_of_empty.
Qed.

Lemma extend_down_diag d : forall bs,
  d <= n -> extend_down self 0 0 false d d bs = Some (0, 0, d + bs).
Proof.
  induction d as [|d IH]; intros bs Hd; [reflexivity|].
  cbn [extend_down]. replace (S d - 1) with d by lia.
  replace ((0 <? S d) && (0 <? S d)) with true by reflexivity.
  destruct (lookup_lt_is_Some_2 (seq_b self) d) as [y Hy]; [lia|].
  rewrite Hab, Hy. cbn [mbind option_bind].
  rewrite isbjunk_false. cbn [eqb].
  rewrite bool_decide_eq_true_2 by reflexivity.
  rewrite IH by lia. do 2 f_equal. lia.
Qed.

Lemma extend_up_diag gas : forall bs,
  bs <= n -> n - bs <= gas ->
  extend_up self n n gas false 0 0 bs = Some (0, 0, n).
Proof.
  induction gas as [|gas IH]; intros bs Hbs Hgas.
  - assert (bs = n) as -> by lia. simpl.
    now rewrite Nat.ltb_irrefl.
  - cbn [extend_up]. cbn [Nat.add].
    destruct (bs <? n) eqn:E.
    + apply Nat.ltb_lt in E. cbn [andb].
      destruct (lookup_lt_is_Some_2 (seq_b self) bs) as [y Hy]; [lia|].
      rewrite Hab, Hy. cbn [mbind option_bind].
      rewrite isbjunk_false. cbn [eqb].
      rewrite bool_decide_eq_true_2 by reflexivity.
      apply IH; lia.
    + apply Nat.ltb_ge in E. assert (bs = n) as -> by lia. reflexivity.
Qed.

Lemma extend_up_full gas junk :
  extend_up self n n gas junk 0 0 n = Some (0, 0, n).
Proof. destruct gas; simpl; now rewrite Nat.ltb_irrefl. Qed.

(** Over the whole of a sequence and itself the longest match is the
    whole sequence. *)
Lemma find_longest_match_self :
  find_longest_match self 0 n 0 n = Some (0, 0, n).
Proof.
  unfold find_longest_match.
  destruct (scan_rows_inv self 0 0 n (n - 0) 0 ∅ (0, 0, 0))
    as ([[d d'] bs] & Hrows & Hb).
  - rewrite Hab. lia.
  - lia.
  - intros j v. rewrite lookup_empty. discriminate.
  - unfold best_inv. simpl. lia.
  - rewrite Hrows. cbn [mbind option_bind].
    apply scan_rows_diag in Hrows.
    + simpl in Hrows. subst d'.
      unfold best_inv in Hb. simpl in Hb.
      rewrite extend_down_diag by lia. cbn [mbind option_bind].
      rewrite extend_up_diag by lia. cbn [mbind option_bind].
      cbn [extend_down]. cbn [mbind option_bind].
      apply extend_up_full.
    + split_and!; simpl; auto.
      * intros j v. rewrite lookup_empty. discriminate.
      * intros i' Hi'. assert (i' = 0) as -> by lia. reflexivity.
Qed.

Lemma matching_loop_nil gas blocks :
  matching_loop self gas [] blocks = Some blocks.
Proof. destruct gas; reflexivity. Qed.

Lemma sort_blocks_singleton (x : Match) : sort_blocks [x] = [x].
Proof.
  apply Permutation_singleton_r. unfold sort_blocks.
  apply merge_sort_Permutation.
Qed.

Lemma collapse_singleton k : collapse [(0, 0, S k)] = [(0, 0, S k)].
Proof. reflexivity. Qed.

Lemma opcodes_of_single k :
  opcodes_of_blocks [(0, 0, S k); (S k, S k, 0)]
  = [(tag_equal, 0, S k, 0, S k)].
Proof.
  unfold opcodes_of_blocks. cbn [fold_left opcode_step Nat.add].
  rewrite !Nat.ltb_irrefl. reflexivity.
Qed.

(** The opcodes of a sequence against itself: none for the empty
    sequence, else the single ['equal'] over the whole of it. *)
Lemma get_opcodes_self :
  get_opcodes self
  = Some (match n with
          | 0 => []
          | S _ => [(tag_equal, 0, n, 0, n)]
          end).
Proof.
  unfold get_opcodes, get_matching_blocks. rewrite Hab.
  replace (2 * n + 1) with (S (2 * n)) by lia. cbn [matching_loop].
  rewrite find_longest_match_self. cbn [mbind option_bind].
  destruct (length (seq_b self)) as [|m].
  - rewrite matching_loop_nil. reflexivity.
  - replace ((0 <? 0) && (0 <? 0)) with false by reflexivity.
    cbn [Nat.add]. rewrite Nat.ltb_irrefl. cbn [andb app].
    rewrite matching_loop_nil. cbn [mbind option_bind].
    rewrite sort_blocks_singleton, collapse_singleton. cbn [app].
    now rewrite opcodes_of_single.
Qed.

End IdentityFacts.

(** ** The gateway *)

Section GatewayFacts.
Import Backend.

Lemma lstrip_nil_iff s :
  lstrip s = [] <-> forallb Py_UNICODE_ISSPACE s = true.
Proof.
  induction s as [|c s IH]; simpl; [tauto|].
  destruct (Py_UNICODE_ISSPACE c); simpl; [exact IH|].
  split; discriminate.
Qed.

Lemma lstrip_cons s c r :
  lstrip s = c :: r -> Py_UNICODE_ISSPACE c = false.
Proof.
  induction s as [|d s IH]; simpl; [discriminate|].
  destruct (Py_UNICODE_ISSPACE d) eqn:E; [exact IH|].
  intros [= <- _]. exact E.
Qed.

(** The trimmed text is empty exactly when the text is empty or all
    whitespace. *)
Lemma strip_nil_iff s :
  strip s = [] <-> forallb Py_UNICODE_ISSPACE s = true.
Proof.
  unfold strip, rstrip. split.
  - intros Hs.
    assert (Hr : lstrip (rev (lstrip s)) = []).
    { destruct (lstrip (rev (lstrip s))); [reflexivity|].
      simpl in Hs. apply app_eq_nil in Hs as [_ Hs]. discriminate. }
    apply lstrip_nil_iff in Hr.
    destruct (lstrip s) as [|c r] eqn:E; [now apply lstrip_nil_iff|].
    apply lstrip_cons in E.
    rewrite forallb_forall in Hr.
    rewrite (Hr c) in E; [discriminate|].
    apply in_rev. rewrite rev_involutive. now left.
  - intros Hs. apply lstrip_nil_iff in Hs. now rewrite Hs.
Qed.

(** With a text that is not empty after trimming, the handler posts
    the prompt once and maps what [query_ollama] gives. *)
Lemma assist_report_posts be data log :
  strip (text data) <> [] ->
  assist_report be data log
  = let prompt := build_prompt (mode_of data) (strip (text data)) in
    match query_ollama be prompt log with
    | (log', inl e) =>
        (log', HTTPException 500 (py "LLM error: " ++ str_of_exn e))
    | (log', inr response) =>
        match strip_method response with
        | inl e =>
            (log', HTTPException 500 (py "LLM error: " ++ str_of_exn e))
        | inr assisted => (log', Ok200 assisted)
        end
    end.
Proof.
  intros Hne. unfold assist_report.
  destruct (strip (text data)); [congruence | reflexivity].
Qed.

Lemma query_ollama_log be prompt log :
  (query_ollama be prompt log).1 = log ++ [prompt].
Proof.
  unfold query_ollama.
  destruct (be (length log) prompt) as [msg|code reason payload];
    [reflexivity|].
  destruct (raise_for_status code reason); [reflexivity|].
  destruct payload; reflexivity.
Qed.

Lemma raise_for_status_error status_code reason :
  is_error_status status_code ->
  exists msg, raise_for_status status_code reason = Some (HTTPError msg).
Proof.
  unfold is_error_status, raise_for_status. intros Hc.
  destruct ((400 <=? status_code) && (status_code <? 500)) eqn:E1;
    [eauto|].
  destruct ((500 <=? status_code) && (status_code <? 600)) eqn:E2;
    [eauto|].
  apply andb_false_iff in E1, E2.
  rewrite Nat.leb_gt, Nat.ltb_ge in E1, E2. lia.
Qed.

Lemma raise_for_status_2xx status_code reason :
  200 <= status_code < 300 -> raise_for_status status_code reason = None.
Proof.
  unfold raise_for_status. intros Hc.
  replace (400 <=? status_code) with false
    by (symmetry; apply Nat.leb_gt; lia).
  replace (500 <=? status_code) with false
    by (symmetry; apply Nat.leb_gt; lia).
  reflexivity.
Qed.

End GatewayFacts.

(** ** The aligner on token sequences *)

Section AlignerOnTokens.
Import Difflib Layout Frontend.

Lemma get_opcodes_same {A : Type} `{Countable A} (a : list A) :
  get_opcodes (SequenceMatcher a a)
  = Some (match length a with
          | 0 => []
          | S _ => [(tag_equal, 0, length a, 0, length a)]
          end).
Proof.
  apply (get_opcodes_self (SequenceMatcher a a)).
  - reflexivity.
  - intros x js. apply SequenceMatcher_b2j.
  - reflexivity.
Qed.

Lemma count_status_unchanged st ws :
  st <> unchanged -> count_status st (tagged unchanged ws) = 0.
Proof.
  intros Hne. rewrite count_status_tagged.
  destruct (decide (unchanged = st)); congruence.
Qed.

Lemma generate_word_diff_same original revised :
  Tokenizer.findall original = Tokenizer.findall revised ->
  generate_word_diff original revised
  = Some (tagged unchanged (Tokenizer.findall original),
          tagged unchanged (Tokenizer.findall original)).
Proof.
  intros Heq. unfold generate_word_diff. rewrite <- Heq.
  rewrite get_opcodes_same. cbn [mbind option_bind].
  set (a := Tokenizer.findall original).
  destruct (length a) as [|m] eqn:El.
  - apply nil_length_inv in El. now rewrite El.
  - rewrite <- El. rewrite classify_parts.
    + cbn [flat_map original_part revised_part app].
      now rewrite !app_nil_r, slice_all.
    + forall_list. simpl. lia.
Qed.

End AlignerOnTokens.

(** ** The stated properties *)

Section Properties.
Import Tokenizer Difflib Layout Frontend.

(** C1. Tokenizer round-trip: for every string [s], concatenating the
    tokens that [re.findall(r'\S+|\s+', s)] produces gives [s] back,
    character for character; the empty string gives no token. *)
Theorem tokenizer_round_trip :
  forall s : str, concat (findall s) = s /\ findall [] = [].
Proof.
  intros s. split; [|reflexivity].
  unfold findall. now apply findall_from_concat.
Qed.

(** C9. Tokenizer partition: every token is non-empty and consists
    either of whitespace only or of non-whitespace only, and no two
    adjacent tokens have the same class, so the runs are maximal. *)
Theorem tokenizer_partition :
  forall s : str,
    Forall (fun t => t <> [] /\ (all_space t = true \/ all_non_space t = true))
           (findall s)
    /\ alternating (findall s).
Proof.
  intros s. unfold findall. split.
  - now apply findall_from_classes.
  - now apply findall_from_alternating.
Qed.

(** C2. Aligner totality: for every pair of token sequences [a] and
    [b], [get_opcodes] returns, and its opcodes tile the original side
    from [0] to [len(a)] and the revised side from [0] to [len(b)]:
    contiguous, in order, without gap or overlap. *)
Theorem aligner_totality :
  forall a b : list str,
    exists ops,
      get_opcodes (SequenceMatcher a b) = Some ops
      /\ tiles 0 0 ops (length a) (length b).
Proof.
  intros a b. apply (get_opcodes_tiles (SequenceMatcher a b)).
Qed.

(** C3, as stated, fails on the empty text: the aligner returns no
    opcode at all there, not one ['equal'] opcode. *)
Lemma aligner_identity_empty :
  findall (py "") = findall (py "")
  /\ word_opcodes (py "") (py "") = Some []
  /\ forall op, word_opcodes (py "") (py "") <> Some [op].
Proof.
  split; [reflexivity|]. split; [reflexivity|].
  intros op. discriminate.
Qed.

(** C3, amended. When the two token sequences are equal (in particular
    when the texts are), the aligner returns the single ['equal'] opcode
    over everything if there is a token, and no opcode if there is none;
    in both cases [generate_word_diff] tags every token of both sides
    ['unchanged'], so that no token is added, modified or deleted. *)
Theorem aligner_identity (original revised : str) :
  findall original = findall revised ->
  word_opcodes original revised
  = Some (match findall original with
          | [] => []
          | _ :: _ =>
              [(tag_equal, 0, length (findall original),
                0, length (findall original))]
          end)
  /\ generate_word_diff original revised
     = Some (tagged unchanged (findall original),
             tagged unchanged (findall revised))
  /\ count_status added (tagged unchanged (findall revised)) = 0
  /\ count_status modified (tagged unchanged (findall revised)) = 0
  /\ count_status deleted (tagged unchanged (findall original)) = 0.
Proof.
  intros Heq. split_and!.
  - unfold word_opcodes. rewrite <- Heq, get_opcodes_same.
    now destruct (findall original).
  - rewrite <- Heq. now apply generate_word_diff_same.
  - now apply count_status_unchanged.
  - now apply count_status_unchanged.
  - now apply count_status_unchanged.
Qed.

Lemma aligner_identity_witness :
  findall (py "The cat sat.") = findall (py "The cat sat.")
  /\ word_opcodes (py "The cat sat.") (py "The cat sat.")
     = Some [(tag_equal, 0, 5, 0, 5)].
Proof.
  split; [reflexivity|].
  exact (proj1 (aligner_identity (py "The cat sat.") (py "The cat sat.")
                  eq_refl)).
Defined.

(** C4. Classifier conservation and count agreement: the original diff
    has as many entries as the ['equal'], ['delete'] and ['replace']
    opcodes span on the original side, which is the number of original
    tokens, and the revised diff likewise; the numbers of tokens tagged
    ['added'], ['modified'] and ['deleted'] are those that the insert,
    replace and delete opcodes span. Every token, whitespace or word,
    appears in its diff, in order. *)
Theorem classifier_conservation :
  forall original revised : str,
    exists ops original_diff revised_diff,
      word_opcodes original revised = Some ops
      /\ generate_word_diff original revised
         = Some (original_diff, revised_diff)
      /\ length original_diff
         = span_original tag_equal ops + span_original tag_delete ops
           + span_original tag_replace ops
      /\ length original_diff = length (findall original)
      /\ length revised_diff
         = span_revised tag_equal ops + span_revised tag_insert ops
           + span_revised tag_replace ops
      /\ length revised_diff = length (findall revised)
      /\ count_status added revised_diff = span_revised tag_insert ops
      /\ count_status modified revised_diff = span_revised tag_replace ops
      /\ count_status modified original_diff = span_original tag_replace ops
      /\ count_status deleted original_diff = span_original tag_delete ops
      /\ map fst original_diff = findall original
      /\ map fst revised_diff = findall revised.
Proof.
  intros original revised.
  destruct (generate_word_diff_parts original revised)
    as (ops & Hops & Ht & Hgen).
  assert (Hv : Forall (valid_op (length (findall original))
                         (length (findall revised))) ops)
    by (eapply tiles_valid; [exact Ht | lia | lia]).
  destruct (parts_counts (findall original) (findall revised) ops Hv)
    as (Hc1 & Hc2 & Hc3 & Hc4 & Hc5 & Hc6).
  destruct (parts_words (findall original) (findall revised) ops _ _ _ _ Ht)
    as [Hw1 Hw2].
  rewrite slice_all in Hw1, Hw2.
  eexists ops, _, _. split_and!; try eassumption.
  - rewrite <- Hw1 at 2. now rewrite length_map.
  - rewrite <- Hw2 at 2. now rewrite length_map.
Qed.

(** C5 fails on the code: the script empties both diffs before it
    builds the report, so the report always says 0, 0 and 0. For
    "The cat sat." revised to "The dog sat." the change summary shows
    one modified token and the report none. *)
Lemma report_counts_reset :
  render_results (SessionState (py "The cat sat.") (py "The dog sat.")) full
  = Some (ResultsView (Some (0, 1, 0)) (0, 0, 0)
            (report_text (py "The cat sat.") (py "The dog sat.")
               (py "full") 0 0 0)).
Proof. vm_compute. reflexivity. Qed.

(** C10. Side restriction: the statuses of the original diff are
    ['unchanged'], ['deleted'] or ['modified'], never ['added']; those of
    the revised diff are ['unchanged'], ['added'] or ['modified'], never
    ['deleted']. *)
Theorem side_restriction :
  forall original revised : str,
    exists original_diff revised_diff,
      generate_word_diff original revised
      = Some (original_diff, revised_diff)
      /\ Forall (fun ws : str * status =>
                   ws.2 = unchanged \/ ws.2 = deleted \/ ws.2 = modified)
                original_diff
      /\ Forall (fun ws : str * status =>
                   ws.2 = unchanged \/ ws.2 = added \/ ws.2 = modified)
                revised_diff.
Proof.
  intros original revised.
  destruct (generate_word_diff_parts original revised)
    as (ops & _ & _ & Hgen).
  destruct (parts_statuses (findall original) (findall revised) ops)
    as [H1 H2].
  eexists _, _. split_and!; [exact Hgen | |].
  - eapply Forall_impl; [exact H1|]. intros [w []]; simpl; tauto.
  - eapply Forall_impl; [exact H2|]. intros [w []]; simpl; tauto.
Qed.

End Properties.

Section GatewayProperties.
Import Backend.

(** C6. Validation before any network call: when the text is empty
    after trimming, which is when it is empty or all whitespace, the
    handler raises the 422 "Empty text input." and posts nothing;
    otherwise what it raises or returns is not a 422. *)
Theorem validation_before_network :
  forall (be : backend) (data : AssistRequest) (log : net_log),
    (strip (text data) = []
     <-> forallb Py_UNICODE_ISSPACE (text data) = true)
    /\ match strip (text data) with
       | [] =>
           assist_report be data log
           = (log, HTTPException 422 (py "Empty text input."))
       | _ :: _ => status_of (assist_report be data log).2 <> 422
       end.
Proof.
  intros be data log. split; [apply strip_nil_iff|].
  destruct (strip (text data)) as [|c t] eqn:E.
  - unfold assist_report. now rewrite E.
  - rewrite assist_report_posts by (rewrite E; discriminate).
    cbv zeta.
    destruct (query_ollama be _ log) as [log' [e|response]];
      [simpl; discriminate|].
    destruct (strip_method response); simpl; discriminate.
Qed.

(** C7, as stated, fails for a status outside 2xx that is neither 4xx
    nor 5xx: a 300 with a JSON body is taken as a success. *)
Lemma upstream_non_2xx_accepted :
  non_2xx 300
  /\ (assist_report
        (fun _ _ =>
           Response 300 (py "Multiple Choices")
             (Json (JObj [(py "response", JStr (py "ok"))])))
        (Build_AssistRequest (py "hi") full) []).2
     = Ok200 (py "ok").
Proof.
  split; [unfold non_2xx; lia|]. vm_compute. reflexivity.
Qed.

(** C7, amended. When the post raises (backend unreachable, timeout)
    or the response has a 4xx or 5xx status, the handler raises a 500
    whose detail is "LLM error: " and the message of the failure; it
    has posted the prompt once and gives no assisted text. *)
Theorem upstream_failure_mapping
    (be : backend) (data : AssistRequest) (log : net_log) :
  strip (text data) <> [] ->
  let prompt := build_prompt (mode_of data) (strip (text data)) in
  match be (length log) prompt with
  | Raised msg =>
      assist_report be data log
      = (log ++ [prompt], HTTPException 500 (py "LLM error: " ++ msg))
  | Response status_code reason _ =>
      is_error_status status_code ->
      exists msg,
        raise_for_status status_code reason = Some (HTTPError msg)
        /\ assist_report be data log
           = (log ++ [prompt], HTTPException 500 (py "LLM error: " ++ msg))
  end.
Proof.
  intros Hne prompt. rewrite assist_report_posts by exact Hne.
  cbv zeta. fold prompt. unfold query_ollama.
  destruct (be (length log) prompt) as [msg|code reason payload];
    [reflexivity|].
  intros Herr.
  destruct (raise_for_status_error code reason Herr) as (msg & Hmsg).
  exists msg. rewrite Hmsg. auto.
Qed.

Lemma upstream_failure_mapping_witness :
  strip (text (Build_AssistRequest (py "hi") full)) <> []
  /\ (is_error_status 500 ->
      exists msg,
        raise_for_status 500 (py "Internal Server Error")
        = Some (HTTPError msg)
        /\ assist_report
             (fun _ _ => Response 500 (py "Internal Server Error")
                           (NotJson (py "")))
             (Build_AssistRequest (py "hi") full) []
           = ([build_prompt full (py "hi")],
              HTTPException 500 (py "LLM error: " ++ msg))).
Proof.
  assert (Hne : strip (text (Build_AssistRequest (py "hi") full)) <> [])
    by (vm_compute; discriminate).
  split; [exact Hne|].
  exact (upstream_failure_mapping
           (fun _ _ => Response 500 (py "Internal Server Error")
                         (NotJson (py "")))
           (Build_AssistRequest (py "hi") full) [] Hne).
Defined.

(** C8, as stated, fails: a success response without the field
    ['response'] makes the handler raise exactly what a failure of the
    transport with the same message makes it raise, a 500 whose detail
    starts with "LLM error: "; the two are not distinct kinds. *)
Lemma malformed_not_distinct :
  (assist_report (fun _ _ => Response 200 (py "OK") (Json (JObj [])))
     (Build_AssistRequest (py "hi") full) []).2
  = HTTPException 500 (py "LLM error: 'response'")
  /\ (assist_report (fun _ _ => Raised (py "'response'"))
        (Build_AssistRequest (py "hi") full) []).2
     = HTTPException 500 (py "LLM error: 'response'").
Proof. split; vm_compute; reflexivity. Qed.

(** C8, amended. When the response has a 2xx status and its JSON object
    lacks the field ['response'], the handler raises the same kind of
    failure as for an upstream error: the 500 whose detail is
    "LLM error: 'response'"; it has posted the prompt once and gives no
    assisted text. *)
Theorem malformed_response_error
    (be : backend) (data : AssistRequest) (log : net_log)
    (status_code : nat) (reason : str) (fields : list (str * json)) :
  strip (text data) <> [] ->
  be (length log) (build_prompt (mode_of data) (strip (text data)))
  = Response status_code reason (Json (JObj fields)) ->
  200 <= status_code < 300 ->
  dict_get fields (py "response") = None ->
  assist_report be data log
  = (log ++ [build_prompt (mode_of data) (strip (text data))],
     HTTPException 500 (py "LLM error: 'response'")).
Proof.
  intros Hne Hbe Hcode Hget. rewrite assist_report_posts by exact Hne.
  cbv zeta. unfold query_ollama. rewrite Hbe.
  rewrite raise_for_status_2xx by exact Hcode.
  unfold subscript. rewrite Hget. reflexivity.
Qed.

Lemma malformed_response_error_witness :
  strip (text (Build_AssistRequest (py "hi") full)) <> []
  /\ 200 <= 200 < 300
  /\ dict_get [(py "done", JBool true)] (py "response") = None
  /\ assist_report
       (fun _ _ => Response 200 (py "OK")
                     (Json (JObj [(py "done", JBool true)])))
       (Build_AssistRequest (py "hi") full) []
     = ([build_prompt full (py "hi")],
        HTTPException 500 (py "LLM error: 'response'")).
Proof.
  assert (Hne : strip (text (Build_AssistRequest (py "hi") full)) <> [])
    by (vm_compute; discriminate).
  assert (Hcode : 200 <= 200 < 300) by lia.
  assert (Hget : dict_get [(py "done", JBool true)] (py "response") = None)
    by reflexivity.
  split; [exact Hne|]. split; [exact Hcode|]. split; [exact Hget|].
  exact (malformed_response_error
           (fun _ _ => Response 200 (py "OK")
                         (Json (JObj [(py "done", JBool true)])))
           (Build_AssistRequest (py "hi") full) [] 200 (py "OK")
           [(py "done", JBool true)] Hne eq_refl Hcode Hget).
Defined.

End GatewayProperties.

(** ** The blocks pair equal elements *)

Section MatchFacts.
Import Difflib Layout Alignment.
Context {A : Type} `{Countable A}.
Variable self : matcher (A := A).
Hypothesis Hkeys :
  forall x js j, b2j self !! x = Some js -> j ∈ js ->
                 seq_b self !! j = Some x.

Local Abbreviation a := (seq_a self).
Local Abbreviation b := (seq_b self).

Lemma j2lenget_matches r j2len j :
  row_matches a b r j2len ->
  j2lenget j2len j <= r /\ j2lenget j2len j <= j
  /\ forall d, d < j2lenget j2len j ->
       a !! (r - j2lenget j2len j + d) = b !! (j - j2lenget j2len j + d).
Proof.
  intros Hrow. destruct j as [|j']; simpl.
  - split_and!; [lia | lia | intros d Hd; lia].
  - destruct (j2len !! j') as [v|] eqn:E; simpl.
    + destruct (Hrow _ _ E) as (? & ? & Hm). split_and!; [lia | lia |].
      intros d Hd. rewrite (Hm d Hd). f_equal. lia.
    + split_and!; [lia | lia | intros d Hd; lia].
Qed.

(** A match that ends just before [(i, j)] grows by the pair
    [a[i] == b[j]]. *)
Lemma match_grows i j v :
  v <= i -> v <= j ->
  (forall d, d < v -> a !! (i - v + d) = b !! (j - v + d)) ->
  a !! i = b !! j ->
  forall d, d < v + 1 ->
    a !! (i + 1 - (v + 1) + d) = b !! (j + 1 - (v + 1) + d).
Proof.
  intros Hi Hj Hm Hij d Hd.
  replace (i + 1 - (v + 1)) with (i - v) by lia.
  replace (j + 1 - (v + 1)) with (j - v) by lia.
  destruct (decide (d < v)) as [Hlt|Hge]; [now apply Hm|].
  assert (d = v) as -> by lia.
  replace (i - v + v) with i by lia.
  replace (j - v + v) with j by lia. exact Hij.
Qed.

Lemma scan_row_matches blo bhi i x j2len :
  a !! i = Some x -> row_matches a b i j2len ->
  forall js newj2len best m' best',
  (forall j, j ∈ js -> b !! j = Some x) ->
  row_matches a b (S i) newj2len -> matches a b best ->
  scan_row blo bhi i j2len js newj2len best = (m', best') ->
  row_matches a b (S i) m' /\ matches a b best'.
Proof.
  intros Hx Hold.
  induction js as [|j js IH]; intros newj2len best m' best' Hjs Hnew Hbest.
  - intros [= <- <-]. auto.
  - cbn [scan_row].
    assert (Hjs' : forall j0, j0 ∈ js -> b !! j0 = Some x)
      by (intros j0 Hj0; apply Hjs; now right).
    destruct (j <? blo); [now apply IH|].
    destruct (bhi <=? j); [intros [= <- <-]; auto|].
    destruct (j2lenget_matches i j2len j Hold) as (Hv1 & Hv2 & Hvm).
    assert (Hij : a !! i = b !! j)
      by (rewrite Hx; symmetry; apply Hjs; now left).
    pose proof (match_grows i j _ Hv1 Hv2 Hvm Hij) as Hk.
    set (k := j2lenget j2len j + 1) in *.
    apply IH; [exact Hjs' | |].
    + intros j0 v. rewrite lookup_insert. case_decide as Hj0.
      * intros [= <-]. subst j0. split_and!; [lia | lia |].
        intros d Hd. specialize (Hk d Hd).
        now replace (S i) with (i + 1) by lia.
      * apply Hnew.
    + destruct (best.2 <? k); [|exact Hbest].
      intros d Hd. simpl in Hd |- *. now apply Hk.
Qed.

Lemma scan_rows_matches blo bhi n : forall i j2len best best',
  row_matches a b i j2len -> matches a b best ->
  scan_rows self blo bhi (seq i n) j2len best = Some best' ->
  matches a b best'.
Proof.
  induction n as [|n IH]; intros i j2len best best' Hrow Hbest.
  - intros [= <-]. exact Hbest.
  - cbn [seq scan_rows].
    destruct (a !! i) as [x|] eqn:Hx; [|discriminate].
    cbn [mbind option_bind].
    destruct (scan_row blo bhi i j2len (default [] (b2j self !! x)) ∅ best)
      as [m' best1] eqn:E.
    apply scan_row_matches with (x := x) in E; try assumption.
    + destruct E as [Hrow' Hbest']. now apply IH.
    + intros j Hj. destruct (b2j self !! x) as [js|] eqn:Ejs; simpl in Hj.
      * eapply Hkeys; eassumption.
      * now apply elem_of_nil in Hj.
    + intros j v. rewrite lookup_empty. discriminate.
Qed.

Lemma extend_down_matches alo blo junk besti : forall bestj bestsize m,
  matches a b (besti, bestj, bestsize) ->
  extend_down self alo blo junk besti bestj bestsize = Some m ->
  matches a b m.
Proof.
  induction besti as [|i IH]; intros bestj bestsize m Hm.
  - intros [= <-]. exact Hm.
  - cbn [extend_down].
    destruct ((alo <? S i) && (blo <? bestj)) eqn:Ec;
      [|intros [= <-]; exact Hm].
    apply andb_true_iff in Ec as [_ E2]. apply Nat.ltb_lt in E2.
    destruct (b !! (bestj - 1)) as [y|] eqn:Hy; [|discriminate].
    cbn [mbind option_bind].
    destruct (eqb (isbjunk self y) junk); [|intros [= <-]; exact Hm].
    destruct (a !! i) as [x|] eqn:Hx; [|discriminate].
    cbn [mbind option_bind].
    destruct (bool_decide (x = y)) eqn:Exy; [|intros [= <-]; exact Hm].
    apply bool_decide_eq_true in Exy. subst y.
    apply IH. intros d Hd. simpl in Hd |- *.
    destruct d as [|d'].
    + rewrite !Nat.add_0_r. now rewrite Hx, Hy.
    + specialize (Hm d'). simpl in Hm.
      replace (i + S d') with (S i + d') by lia.
      replace (bestj - 1 + S d') with (bestj + d') by lia.
      apply Hm. lia.
Qed.

Lemma extend_up_matches ahi bhi junk besti bestj gas : forall bestsize m,
  matches a b (besti, bestj, bestsize) ->
  extend_up self ahi bhi gas junk besti bestj bestsize = Some m ->
  matches a b m.
Proof.
  induction gas as [|gas IH]; intros bestsize m Hm; cbn [extend_up];
    destruct ((besti + bestsize <? ahi) && (bestj + bestsize <? bhi));
    try discriminate; try (intros [= <-]; exact Hm).
  destruct (b !! (bestj + bestsize)) as [y|] eqn:Hy; [|discriminate].
  cbn [mbind option_bind].
  destruct (eqb (isbjunk self y) junk); [|intros [= <-]; exact Hm].
  destruct (a !! (besti + bestsize)) as [x|] eqn:Hx; [|discriminate].
  cbn [mbind option_bind].
  destruct (bool_decide (x = y)) eqn:Exy; [|intros [= <-]; exact Hm].
  apply bool_decide_eq_true in Exy. subst y.
  apply IH. intros d Hd. simpl in Hd |- *.
  destruct (decide (d < bestsize)) as [Hlt|Hge].
  - now apply (Hm d).
  - assert (d = bestsize) as -> by lia. now rewrite Hx, Hy.
Qed.

(** What [find_longest_match] returns pairs equal elements. *)
Lemma find_longest_match_matches alo ahi blo bhi m :
  find_longest_match self alo ahi blo bhi = Some m -> matches a b m.
Proof.
  unfold find_longest_match.
  destruct (scan_rows self blo bhi (seq alo (ahi - alo)) ∅ (alo, blo, 0))
    as [[[i0 j0] k0]|] eqn:E0; [|discriminate].
  cbn [mbind option_bind].
  apply scan_rows_matches in E0.
  - destruct (extend_down self alo blo false i0 j0 k0)
      as [[[i1 j1] k1]|] eqn:E1; [|discriminate].
    cbn [mbind option_bind].
    apply extend_down_matches in E1; [|exact E0].
    destruct (extend_up self ahi bhi ahi false i1 j1 k1)
      as [[[i2 j2] k2]|] eqn:E2; [|discriminate].
    cbn [mbind option_bind].
    apply extend_up_matches in E2; [|exact E1].
    destruct (extend_down self alo blo true i2 j2 k2)
      as [[[i3 j3] k3]|] eqn:E3; [|discriminate].
    cbn [mbind option_bind].
    apply extend_down_matches in E3; [|exact E2].
    intros E4. now apply extend_up_matches in E4.
  - intros j v. rewrite lookup_empty. discriminate.
  - intros d Hd. simpl in Hd. lia.
Qed.

End MatchFacts.

(** ** From matching blocks to opcodes that agree *)

Section OpcodeMatchFacts.
Import Difflib Layout Alignment.
Context {A : Type} `{Countable A}.
Variable self : matcher (A := A).
Hypothesis Hkeys :
  forall x js j, b2j self !! x = Some js -> j ∈ js ->
                 seq_b self !! j = Some x.

Local Abbreviation a := (seq_a self).
Local Abbreviation b := (seq_b self).
Local Abbreviation la := (length (seq_a self)).
Local Abbreviation lb := (length (seq_b self)).

Lemma matching_loop_matches gas : forall queue blocks blocks',
  Forall (matches a b) blocks ->
  matching_loop self gas queue blocks = Some blocks' ->
  Forall (matches a b) blocks'.
Proof.
  induction gas as [|gas IH]; intros queue blocks blocks' Hb.
  - destruct queue as [|[[[alo ahi] blo] bhi] q]; simpl;
      [intros [= <-]; exact Hb | discriminate].
  - destruct queue as [|[[[alo ahi] blo] bhi] q];
      [simpl; intros [= <-]; exact Hb|].
    cbn [matching_loop].
    destruct (find_longest_match self alo ahi blo bhi)
      as [[[i j] k]|] eqn:E; [|discriminate].
    cbn [mbind option_bind].
    apply (find_longest_match_matches self Hkeys) in E.
    destruct k as [|k']; [now apply IH|].
    apply IH. apply Forall_app. split; [exact Hb|]. now forall_list.
Qed.

Lemma matches_merge i1 j1 k1 k2 :
  matches a b (i1, j1, k1) -> matches a b (i1 + k1, j1 + k1, k2) ->
  matches a b (i1, j1, k1 + k2).
Proof.
  unfold matches. simpl. intros H1 H2 d Hd.
  destruct (decide (d < k1)) as [Hlt|Hge]; [now apply H1|].
  replace (i1 + d) with (i1 + k1 + (d - k1)) by lia.
  replace (j1 + d) with (j1 + k1 + (d - k1)) by lia.
  apply H2. lia.
Qed.

Lemma collapse_fold_matches rest : forall cur na cur' na',
  matches a b cur -> Forall (matches a b) na ->
  Forall (matches a b) rest ->
  fold_left collapse_step rest (cur, na) = (cur', na') ->
  matches a b cur' /\ Forall (matches a b) na'.
Proof.
  induction rest as [|blk rest IH];
    intros [[i1 j1] k1] na cur' na' Hcur Hna Hrest.
  - intros [= <- <-]. auto.
  - apply Forall_cons in Hrest as [Hblk Hrest].
    destruct blk as [[i2 j2] k2]. cbn [fold_left collapse_step].
    destruct ((i1 + k1 =? i2) && (j1 + k1 =? j2)) eqn:E.
    + apply andb_true_iff in E as [E1 E2].
      apply Nat.eqb_eq in E1, E2. subst i2 j2.
      apply IH; auto using matches_merge.
    + destruct k1 as [|k1']; apply IH; auto.
      apply Forall_app. split; [exact Hna|]. now forall_list.
Qed.

Lemma collapse_matches l :
  Forall (matches a b) l -> Forall (matches a b) (collapse l).
Proof.
  intros Hl. unfold collapse.
  destruct (fold_left collapse_step l (0, 0, 0, [])) as [[[i1 j1] k1] na] eqn:E.
  apply collapse_fold_matches in E; auto.
  - destruct E as [Hcur Hna]. destruct k1; [exact Hna|].
    apply Forall_app. split; [exact Hna|]. now forall_list.
  - intros d Hd. simpl in Hd. lia.
Qed.

Lemma get_matching_blocks_matches blocks :
  get_matching_blocks self = Some blocks -> Forall (matches a b) blocks.
Proof.
  unfold get_matching_blocks.
  destruct (matching_loop self (2 * la + 1) [(0, la, 0, lb)] [])
    as [found|] eqn:E; [|discriminate].
  cbn [mbind option_bind]. intros [= <-].
  apply matching_loop_matches in E; [|constructor].
  apply Forall_app. split.
  - apply collapse_matches. unfold sort_blocks.
    now rewrite merge_sort_Permutation.
  - forall_list. intros d Hd. simpl in Hd. lia.
Qed.

Lemma matches_slice ai bj size :
  matches a b (ai, bj, size) ->
  slice ai (ai + size) a = slice bj (bj + size) b.
Proof.
  intros Hm. unfold slice.
  replace (ai + size - ai) with size by lia.
  replace (bj + size - bj) with size by lia.
  apply list_eq. intros d.
  destruct (decide (d < size)) as [Hlt|Hge].
  - rewrite !lookup_take_lt, !lookup_drop by exact Hlt. now apply (Hm d).
  - now rewrite !lookup_take_ge by lia.
Qed.

Lemma opcode_step_agrees i j answer (m : Match) i' j' answer' :
  i <= m.1.1 -> j <= m.1.2 -> matches a b m ->
  Forall (fun op => well_shaped op /\ equal_agrees a b op) answer ->
  opcode_step (i, j, answer) m = (i', j', answer') ->
  Forall (fun op => well_shaped op /\ equal_agrees a b op) answer'.
Proof.
  destruct m as [[ai bj] size]. simpl. intros Hi Hj Hm Hans.
  assert (Hgap : Forall (fun op => well_shaped op /\ equal_agrees a b op)
            (if (i <? ai) && (j <? bj)
             then answer ++ [(tag_replace, i, ai, j, bj)]
             else if i <? ai then answer ++ [(tag_delete, i, ai, j, bj)]
             else if j <? bj then answer ++ [(tag_insert, i, ai, j, bj)]
             else answer)).
  { destruct (Nat.ltb_spec i ai) as [E1|E1];
      destruct (Nat.ltb_spec j bj) as [E2|E2]; simpl;
      try exact Hans;
      (apply Forall_app; split; [exact Hans|]); forall_list;
      (split; [simpl; lia | simpl; discriminate]). }
  intros [= <- <- <-].
  destruct size as [|size']; [exact Hgap|].
  apply Forall_app. split; [exact Hgap|]. forall_list. split.
  - simpl. lia.
  - simpl. intros _. now apply matches_slice.
Qed.

Lemma opcodes_fold_agrees blocks : forall i j answer i' j' answer',
  chain la lb i j blocks -> Forall (matches a b) blocks ->
  Forall (fun op => well_shaped op /\ equal_agrees a b op) answer ->
  fold_left opcode_step blocks (i, j, answer) = (i', j', answer') ->
  Forall (fun op => well_shaped op /\ equal_agrees a b op) answer'.
Proof.
  induction blocks as [|m blocks IH]; intros i j answer i' j' answer';
    cbn [fold_left chain].
  - intros _ _ Hans [= <- <- <-]. exact Hans.
  - intros (Hi & Hj & Hc) Hm Hans.
    apply Forall_cons in Hm as [Hm Hms].
    destruct (opcode_step (i, j, answer) m) as [[i1 j1] answer1] eqn:E.
    pose proof (opcode_step_agrees _ _ _ _ _ _ _ Hi Hj Hm Hans E) as Hans1.
    destruct (opcode_step_tiles i j answer m Hi Hj) as (o1 & Hstep & _).
    rewrite Hstep in E. injection E as <- <- <-.
    eapply IH; eassumption.
Qed.

(** Every opcode that [get_opcodes] returns has the shape of its tag,
    and an ['equal'] opcode spans equal elements. *)
Lemma get_opcodes_agrees ops :
  get_opcodes self = Some ops ->
  Forall (fun op => well_shaped op /\ equal_agrees a b op) ops.
Proof.
  unfold get_opcodes.
  destruct (get_matching_blocks_chain self) as (blocks & Hgmb & Hc).
  pose proof (get_matching_blocks_matches _ Hgmb) as Hm.
  rewrite Hgmb. cbn [mbind option_bind]. intros [= <-].
  unfold opcodes_of_blocks.
  destruct (fold_left opcode_step (blocks ++ [(la, lb, 0)]) (0, 0, []))
    as [[i' j'] answer'] eqn:E.
  simpl. eapply opcodes_fold_agrees; [exact Hc | exact Hm | | exact E].
  constructor.
Qed.

End OpcodeMatchFacts.

(** ** What the two diffs say about the two texts *)

Section DiffFacts.
Import Tokenizer Difflib Layout Alignment Frontend.

Lemma word_opcodes_agrees original revised ops :
  word_opcodes original revised = Some ops ->
  Forall (fun op => well_shaped op
                    /\ equal_agrees (findall original) (findall revised) op)
         ops.
Proof.
  unfold word_opcodes. intros Hops.
  apply (get_opcodes_agrees
           (SequenceMatcher (findall original) (findall revised)));
    [|exact Hops].
  intros x js j Hjs Hj.
  apply SequenceMatcher_b2j in Hjs. destruct Hjs as [_ Hmem].
  now apply Hmem.
Qed.

Lemma concat_findall s : concat (findall s) = s.
Proof. unfold findall. now apply findall_from_concat. Qed.

Lemma unchanged_words_app d1 d2 :
  unchanged_words (d1 ++ d2) = unchanged_words d1 ++ unchanged_words d2.
Proof. unfold unchanged_words. now rewrite filter_app, map_app. Qed.

Lemma unchanged_words_tagged st ws :
  unchanged_words (tagged st ws)
  = if decide (st = unchanged) then ws else [].
Proof.
  unfold unchanged_words, tagged.
  induction ws as [|w ws IH]; simpl.
  - now destruct (decide (st = unchanged)).
  - rewrite filter_cons. simpl.
    destruct (decide (st = unchanged)); simpl; [now f_equal|exact IH].
Qed.

Lemma parts_unchanged a b ops :
  Forall (equal_agrees a b) ops ->
  unchanged_words (flat_map (original_part a) ops)
  = unchanged_words (flat_map (revised_part b) ops).
Proof.
  induction 1 as [|[[[[tg i1] i2] j1] j2] ops Hop _ IH]; [reflexivity|].
  cbn [flat_map]. rewrite !unchanged_words_app, IH. f_equal.
  unfold original_part, revised_part.
  destruct tg; rewrite ?unchanged_words_tagged; simpl; try reflexivity.
  now apply Hop.
Qed.

(** Without an added, a modified or a deleted token the two sides hold
    the same words. *)
Lemma parts_no_change a b ops :
  Forall (valid_op (length a) (length b)) ops ->
  Forall (fun op => well_shaped op /\ equal_agrees a b op) ops ->
  count_status added (flat_map (revised_part b) ops) = 0 ->
  count_status modified (flat_map (revised_part b) ops) = 0 ->
  count_status deleted (flat_map (original_part a) ops) = 0 ->
  map fst (flat_map (original_part a) ops)
  = map fst (flat_map (revised_part b) ops).
Proof.
  intros Hv. induction Hv as [|[[[[tg i1] i2] j1] j2] ops [Hi Hj] _ IH];
    [reflexivity|].
  intros Hs. apply Forall_cons in Hs as [[Hshape Hagree] Hs].
  cbn [flat_map]. rewrite !count_status_app, !map_app.
  intros Ha Hm Hd.
  rewrite IH by (assumption || lia). f_equal.
  assert (Ha0 : count_status added
                  (revised_part b (tg, i1, i2, j1, j2)) = 0) by lia.
  assert (Hm0 : count_status modified
                  (revised_part b (tg, i1, i2, j1, j2)) = 0) by lia.
  assert (Hd0 : count_status deleted
                  (original_part a (tg, i1, i2, j1, j2)) = 0) by lia.
  clear Ha Hm Hd IH. revert Ha0 Hm0 Hd0.
  unfold original_part, revised_part. simpl in Hshape.
  destruct tg; rewrite ?count_status_tagged; simpl;
    rewrite ?tagged_words; unfold tagged;
    rewrite ?length_map, ?slice_length by lia; intros; try lia.
  now apply Hagree.
Qed.

(** Opcodes that span nothing of the original side are inserts. *)
Lemma parts_all_added a b ops : forall i j j',
  tiles i j ops i j' -> Forall well_shaped ops ->
  flat_map (original_part a) ops = []
  /\ flat_map (revised_part b) ops = tagged added (slice j j' b).
Proof.
  induction ops as [|[[[[tg i1] i2] j1] j2] ops IH]; intros i j j'.
  - simpl. intros [_ ->] _. now rewrite slice_nil.
  - cbn [tiles flat_map]. intros (-> & -> & Hi & Hj & _ & Ht) Hs.
    apply Forall_cons in Hs as [Hshape Hs].
    pose proof (tiles_le _ _ _ _ _ Ht) as [Hi' Hj'].
    assert (i2 = i) as -> by lia.
    destruct (IH _ _ _ Ht Hs) as [IH1 IH2]. rewrite IH1, IH2.
    simpl in Hshape. destruct tg; try lia.
    split; [reflexivity|]. unfold revised_part, tagged.
    rewrite <- map_app. now rewrite slice_app by lia.
Qed.

(** Opcodes that span nothing of the revised side are deletes. *)
Lemma parts_all_deleted a b ops : forall i j i',
  tiles i j ops i' j -> Forall well_shaped ops ->
  flat_map (original_part a) ops = tagged deleted (slice i i' a)
  /\ flat_map (revised_part b) ops = [].
Proof.
  induction ops as [|[[[[tg i1] i2] j1] j2] ops IH]; intros i j i'.
  - simpl. intros [-> _] _. now rewrite slice_nil.
  - cbn [tiles flat_map]. intros (-> & -> & Hi & Hj & _ & Ht) Hs.
    apply Forall_cons in Hs as [Hshape Hs].
    pose proof (tiles_le _ _ _ _ _ Ht) as [Hi' Hj'].
    assert (j2 = j) as -> by lia.
    destruct (IH _ _ _ Ht Hs) as [IH1 IH2]. rewrite IH1, IH2.
    simpl in Hshape. destruct tg; try lia.
    split; [|reflexivity]. unfold original_part, tagged.
    rewrite <- map_app. now rewrite slice_app by lia.
Qed.

Lemma replace_spans ops :
  Forall well_shaped ops ->
  span_original tag_replace ops = 0 <-> span_revised tag_replace ops = 0.
Proof.
  unfold span_original, span_revised.
  induction 1 as [|[[[[tg i1] i2] j1] j2] ops Hshape _ IH]; [reflexivity|].
  cbn [map sum_list sum_list_with]. simpl in Hshape.
  destruct tg; simpl; lia.
Qed.

End DiffFacts.

Section DiffProperties.
Import Tokenizer Difflib Layout Alignment Frontend.

(** Each diff shows the whole of its text: joining the words of the
    original diff gives the original text back, and joining those of
    the revised diff gives the revised text. *)
Theorem diff_words_reconstruct :
  forall original revised : str,
    exists original_diff revised_diff,
      generate_word_diff original revised
      = Some (original_diff, revised_diff)
      /\ concat (map fst original_diff) = original
      /\ concat (map fst revised_diff) = revised.
Proof.
  intros original revised.
  destruct (generate_word_diff_parts original revised)
    as (ops & _ & Ht & Hgen).
  destruct (parts_words (findall original) (findall revised) ops _ _ _ _ Ht)
    as [Hw1 Hw2].
  rewrite slice_all in Hw1, Hw2.
  eexists _, _. split_and!; [exact Hgen | |].
  - rewrite Hw1. apply concat_findall.
  - rewrite Hw2. apply concat_findall.
Qed.

(** The words tagged ['unchanged'] are the same on both sides, in the
    same order; in particular both diffs have as many of them. *)
Theorem unchanged_words_agree :
  forall original revised : str,
    exists original_diff revised_diff,
      generate_word_diff original revised
      = Some (original_diff, revised_diff)
      /\ unchanged_words original_diff = unchanged_words revised_diff
      /\ count_status unchanged original_diff
         = count_status unchanged revised_diff.
Proof.
  intros original revised.
  destruct (generate_word_diff_parts original revised)
    as (ops & Hops & _ & Hgen).
  pose proof (word_opcodes_agrees _ _ _ Hops) as Hag.
  assert (Hu : unchanged_words
                 (flat_map (original_part (findall original)) ops)
               = unchanged_words
                   (flat_map (revised_part (findall revised)) ops)).
  { apply parts_unchanged. eapply Forall_impl; [exact Hag|].
    intros op [_ Hop]. exact Hop. }
  eexists _, _. split_and!; [exact Hgen | exact Hu |].
  apply (f_equal length) in Hu. unfold unchanged_words in Hu.
  rewrite !length_map in Hu. exact Hu.
Qed.

(** A token is tagged ['modified'] on one side exactly when one is on
    the other side: the count of the change summary, taken on the
    revised side, is zero exactly when the original side has none. *)
Theorem modified_on_both_sides :
  forall original revised : str,
    exists original_diff revised_diff,
      generate_word_diff original revised
      = Some (original_diff, revised_diff)
      /\ (count_status modified original_diff = 0
          <-> count_status modified revised_diff = 0).
Proof.
  intros original revised.
  destruct (generate_word_diff_parts original revised)
    as (ops & Hops & Ht & Hgen).
  pose proof (word_opcodes_agrees _ _ _ Hops) as Hag.
  assert (Hv : Forall (valid_op (length (findall original))
                         (length (findall revised))) ops)
    by (eapply tiles_valid; [exact Ht | lia | lia]).
  destruct (parts_counts (findall original) (findall revised) ops Hv)
    as (_ & Hc2 & _ & Hc4 & _).
  eexists _, _. split; [exact Hgen|].
  rewrite Hc2, Hc4. apply replace_spans.
  eapply Forall_impl; [exact Hag|]. intros op [Hop _]. exact Hop.
Qed.

(** With an empty original text every token of the revised text is
    tagged ['added'], and with an empty revised text every token of the
    original text is tagged ['deleted']. *)
Theorem diff_against_empty :
  forall text : str,
    generate_word_diff [] text = Some ([], tagged added (findall text))
    /\ generate_word_diff text []
       = Some (tagged deleted (findall text), []).
Proof.
  intros text. split.
  - destruct (generate_word_diff_parts [] text) as (ops & Hops & Ht & Hgen).
    pose proof (word_opcodes_agrees _ _ _ Hops) as Hag.
    destruct (parts_all_added (findall []) (findall text) ops _ _ _ Ht)
      as [H1 H2].
    { eapply Forall_impl; [exact Hag|]. intros op [Hop _]. exact Hop. }
    rewrite Hgen, H1, H2. now rewrite slice_all.
  - destruct (generate_word_diff_parts text []) as (ops & Hops & Ht & Hgen).
    pose proof (word_opcodes_agrees _ _ _ Hops) as Hag.
    destruct (parts_all_deleted (findall text) (findall []) ops _ _ _ Ht)
      as [H1 H2].
    { eapply Forall_impl; [exact Hag|]. intros op [Hop _]. exact Hop. }
    rewrite Hgen, H1, H2. now rewrite slice_all.
Qed.

(** The results part of the page always renders; it shows no change
    summary exactly when the two texts are equal, and a summary that it
    shows counts at least one added, modified or deleted token. *)
Theorem change_summary_positive :
  forall (state : session_state) (m : mode),
    exists view,
      render_results state m = Some view
      /\ match summary_counts view with
         | None => original_text state = assisted_text state
         | Some (n_added, n_modified, n_deleted) =>
             original_text state <> assisted_text state
             /\ 0 < n_added + n_modified + n_deleted
         end.
Proof.
  intros [original revised] m. unfold render_results. simpl.
  destruct (decide (original <> revised)) as [Hne|Heq].
  - rewrite bool_decide_eq_true_2 by exact Hne.
    destruct (generate_word_diff_parts original revised)
      as (ops & Hops & Ht & Hgen).
    rewrite Hgen. cbn [mbind option_bind].
    eexists. split; [reflexivity|]. simpl. split; [exact Hne|].
    pose proof (word_opcodes_agrees _ _ _ Hops) as Hag.
    assert (Hv : Forall (valid_op (length (findall original))
                           (length (findall revised))) ops)
      by (eapply tiles_valid; [exact Ht | lia | lia]).
    destruct (Nat.eq_dec
                (count_status added
                   (flat_map (revised_part (findall revised)) ops)
                 + count_status modified
                     (flat_map (revised_part (findall revised)) ops)
                 + count_status deleted
                     (flat_map (original_part (findall original)) ops)) 0)
      as [Hz|Hnz]; [|lia].
    exfalso. apply Hne.
    pose proof (parts_no_change _ _ _ Hv Hag) as Hsame.
    destruct (parts_words (findall original) (findall revised)
                ops _ _ _ _ Ht) as [Hw1 Hw2].
    rewrite slice_all in Hw1, Hw2.
    rewrite Hw1, Hw2 in Hsame.
    rewrite <- (concat_findall original), <- (concat_findall revised).
    f_equal. apply Hsame; lia.
  - rewrite bool_decide_eq_false_2 by exact Heq. cbn [mbind option_bind].
    eexists. split; [reflexivity|]. simpl.
    destruct (decide (original = revised)); [assumption|contradiction].
Qed.

End DiffProperties.

(** ** Trimming *)

Section StripFacts.
Import Backend.

Lemma lstrip_lstrip s : lstrip (lstrip s) = lstrip s.
Proof.
  induction s as [|c s IH]; [reflexivity|]. simpl.
  destruct (Py_UNICODE_ISSPACE c) eqn:E; [exact IH|].
  simpl. now rewrite E.
Qed.

Lemma lstrip_split s :
  exists w, s = w ++ lstrip s /\ forallb Py_UNICODE_ISSPACE w = true.
Proof.
  induction s as [|c s (w & Hs & Hw)]; [now exists []|]. simpl.
  destruct (Py_UNICODE_ISSPACE c) eqn:E.
  - exists (c :: w). simpl. rewrite E, Hw. split; [now f_equal|reflexivity].
  - now exists [].
Qed.

Lemma lstrip_app_space l s :
  forallb Py_UNICODE_ISSPACE l = true -> lstrip (l ++ s) = lstrip s.
Proof.
  induction l as [|c l IH]; [reflexivity|]. simpl.
  destruct (Py_UNICODE_ISSPACE c); [exact IH | discriminate].
Qed.

Lemma lstrip_app_word s r :
  lstrip s <> [] -> lstrip (s ++ r) = lstrip s ++ r.
Proof.
  induction s as [|c s IH]; simpl; [congruence|].
  destruct (Py_UNICODE_ISSPACE c); [exact IH | reflexivity].
Qed.

Lemma forallb_rev {X : Type} (f : X -> bool) l :
  forallb f (rev l) = forallb f l.
Proof.
  induction l as [|x l IH]; [reflexivity|]. simpl.
  rewrite forallb_app, IH. simpl. rewrite andb_true_r. apply andb_comm.
Qed.

(** What [strip] returns neither starts nor ends with whitespace. *)
Lemma strip_trimmed s :
  lstrip (strip s) = strip s /\ rstrip (strip s) = strip s.
Proof.
  unfold strip, rstrip.
  set (u := lstrip s). set (v := lstrip (rev u)).
  assert (Hv : lstrip v = v) by apply lstrip_lstrip.
  split.
  - destruct (lstrip_split (rev u)) as (w & Hu & Hw). fold v in Hu.
    apply (f_equal (@rev _)) in Hu.
    rewrite rev_involutive, rev_app_distr in Hu.
    destruct (rev v) as [|c t] eqn:Et; [reflexivity|].
    simpl in Hu. unfold u in Hu. apply lstrip_cons in Hu.
    simpl. now rewrite Hu.
  - rewrite rev_involutive. now rewrite Hv.
Qed.

Lemma strip_idempotent s : strip (strip s) = strip s.
Proof.
  destruct (strip_trimmed s) as [Hl Hr].
  unfold strip at 1. now rewrite Hl, Hr.
Qed.

(** Whitespace around a text does not change what [strip] returns. *)
Lemma strip_surrounded l s r :
  forallb Py_UNICODE_ISSPACE l = true ->
  forallb Py_UNICODE_ISSPACE r = true ->
  strip (l ++ s ++ r) = strip s.
Proof.
  intros Hl Hr. unfold strip. rewrite lstrip_app_space by exact Hl.
  destruct (lstrip s) as [|c t] eqn:E.
  - apply lstrip_nil_iff in E.
    assert (Hsr : lstrip (s ++ r) = []).
    { apply lstrip_nil_iff. rewrite forallb_app. now rewrite E, Hr. }
    now rewrite Hsr.
  - rewrite lstrip_app_word by (rewrite E; discriminate). rewrite E.
    unfold rstrip. rewrite rev_app_distr.
    rewrite lstrip_app_space by (now rewrite forallb_rev). reflexivity.
Qed.

End StripFacts.

(** ** What the handler returns and posts *)

Section HandlerProperties.
Import Backend.

Lemma raise_for_status_other status_code reason :
  ~ is_error_status status_code ->
  raise_for_status status_code reason = None.
Proof.
  unfold is_error_status, raise_for_status. intros Hc.
  destruct (Nat.leb_spec 400 status_code);
    destruct (Nat.ltb_spec status_code 500);
    destruct (Nat.leb_spec 500 status_code);
    destruct (Nat.ltb_spec status_code 600); simpl; try reflexivity; lia.
Qed.

Lemma raise_for_status_Some status_code reason e :
  raise_for_status status_code reason = Some e ->
  is_error_status status_code.
Proof.
  unfold is_error_status, raise_for_status.
  destruct (Nat.leb_spec 400 status_code);
    destruct (Nat.ltb_spec status_code 500);
    destruct (Nat.leb_spec 500 status_code);
    destruct (Nat.ltb_spec status_code 600); simpl;
    try discriminate; intros _; lia.
Qed.

(** The handler posts once, whatever the backend answers: nothing when
    the trimmed text is empty, else exactly the prompt built from the
    mode and the trimmed text. *)
Theorem handler_posts_once :
  forall (be : backend) (data : AssistRequest) (log : net_log),
    (assist_report be data log).1
    = match strip (text data) with
      | [] => log
      | _ :: _ => log ++ [build_prompt (mode_of data) (strip (text data))]
      end.
Proof.
  intros be data log.
  destruct (strip (text data)) as [|c t] eqn:E.
  - unfold assist_report. now rewrite E.
  - rewrite assist_report_posts by (rewrite E; discriminate).
    cbv zeta. rewrite E.
    pose proof (query_ollama_log be (build_prompt (mode_of data) (c :: t)) log)
      as Hlog.
    destruct (query_ollama be _ log) as [log' [e|response]];
      simpl in Hlog; subst log'; [reflexivity|].
    destruct (strip_method response); reflexivity.
Qed.

(** The handler has three outcomes only: the 200 with the assisted
    text, the 422 "Empty text input.", and a 500 whose detail starts
    with "LLM error: ". *)
Theorem handler_outcomes :
  forall (be : backend) (data : AssistRequest) (log : net_log),
    (exists t, (assist_report be data log).2 = Ok200 t)
    \/ (assist_report be data log).2
       = HTTPException 422 (py "Empty text input.")
    \/ (exists msg,
          (assist_report be data log).2
          = HTTPException 500 (py "LLM error: " ++ msg)).
Proof.
  intros be data log.
  destruct (strip (text data)) as [|c t] eqn:E.
  - right. left. unfold assist_report. now rewrite E.
  - rewrite assist_report_posts by (rewrite E; discriminate).
    cbv zeta.
    destruct (query_ollama be _ log) as [log' [e|response]];
      [right; right; eauto|].
    destruct (strip_method response); [right; right|left]; eauto.
Qed.

(** Success: when the response is not a 4xx or 5xx and its JSON object
    holds a string under ['response'], the handler returns that string
    trimmed. *)
Theorem handler_returns_trimmed_response
    (be : backend) (data : AssistRequest) (log : net_log)
    (status_code : nat) (reason : str) (fields : list (str * json))
    (s : str) :
  strip (text data) <> [] ->
  be (length log) (build_prompt (mode_of data) (strip (text data)))
  = Response status_code reason (Json (JObj fields)) ->
  ~ is_error_status status_code ->
  dict_get fields (py "response") = Some (JStr s) ->
  assist_report be data log
  = (log ++ [build_prompt (mode_of data) (strip (text data))],
     Ok200 (strip s)).
Proof.
  intros Hne Hbe Hcode Hget. rewrite assist_report_posts by exact Hne.
  cbv zeta. unfold query_ollama. rewrite Hbe.
  rewrite raise_for_status_other by exact Hcode.
  unfold subscript. rewrite Hget. reflexivity.
Qed.

Lemma handler_returns_trimmed_response_witness :
  strip (text (Build_AssistRequest (py " hi ") grammar)) <> []
  /\ ~ is_error_status 200
  /\ dict_get [(py "response", JStr (py " Hi. "))] (py "response")
     = Some (JStr (py " Hi. "))
  /\ assist_report
       (fun _ _ => Response 200 (py "OK")
                     (Json (JObj [(py "response", JStr (py " Hi. "))])))
       (Build_AssistRequest (py " hi ") grammar) []
     = ([build_prompt grammar (strip (py " hi "))],
        Ok200 (strip (py " Hi. "))).
Proof.
  assert (Hne : strip (text (Build_AssistRequest (py " hi ") grammar)) <> [])
    by (vm_compute; discriminate).
  assert (Hcode : ~ is_error_status 200) by (unfold is_error_status; lia).
  assert (Hget : dict_get [(py "response", JStr (py " Hi. "))]
                   (py "response") = Some (JStr (py " Hi. ")))
    by reflexivity.
  split; [exact Hne|]. split; [exact Hcode|]. split; [exact Hget|].
  exact (handler_returns_trimmed_response
           (fun _ _ => Response 200 (py "OK")
                         (Json (JObj [(py "response", JStr (py " Hi. "))])))
           (Build_AssistRequest (py " hi ") grammar) [] 200 (py "OK")
           [(py "response", JStr (py " Hi. "))] (py " Hi. ")
           Hne eq_refl Hcode Hget).
Defined.

Lemma assist_report_ok_inv
    (be : backend) (data : AssistRequest) (log : net_log) (t : str) :
  (assist_report be data log).2 = Ok200 t ->
  exists status_code reason fields s,
    be (length log) (build_prompt (mode_of data) (strip (text data)))
    = Response status_code reason (Json (JObj fields))
    /\ ~ is_error_status status_code
    /\ dict_get fields (py "response") = Some (JStr s)
    /\ t = strip s.
Proof.
  destruct (strip (text data)) as [|c u] eqn:E.
  - unfold assist_report. rewrite E. discriminate.
  - rewrite assist_report_posts by (rewrite E; discriminate).
    cbv zeta. rewrite E. unfold query_ollama.
    destruct (be (length log) (build_prompt (mode_of data) (c :: u)))
      as [msg|code reason payload]; [discriminate|].
    destruct (raise_for_status code reason) as [e|] eqn:Er; [discriminate|].
    assert (Hcode : ~ is_error_status code).
    { intros Herr.
      destruct (raise_for_status_error code reason Herr) as (msg & Hm).
      congruence. }
    destruct payload as [msg|v]; [discriminate|].
    destruct v as [| | | | |l|fields]; try discriminate.
    unfold subscript.
    destruct (dict_get fields (py "response")) as [x|] eqn:Eg;
      [|discriminate].
    destruct x as [| | | |s| |]; try discriminate.
    simpl. intros [= <-]. eauto 10.
Qed.

(** Success only then: an assisted text comes from a response that is
    not a 4xx or 5xx and whose JSON object holds a string under
    ['response']; it is that string trimmed. A body that is not JSON,
    not an object, or whose field is missing or not a string never
    gives one. *)
Theorem handler_success_only
    (be : backend) (data : AssistRequest) (log : net_log) (t : str) :
  (assist_report be data log).2 = Ok200 t ->
  exists status_code reason fields s,
    be (length log) (build_prompt (mode_of data) (strip (text data)))
    = Response status_code reason (Json (JObj fields))
    /\ ~ is_error_status status_code
    /\ dict_get fields (py "response") = Some (JStr s)
    /\ t = strip s.
Proof. apply assist_report_ok_inv. Qed.

Lemma handler_success_only_witness :
  (assist_report
     (fun _ _ => Response 200 (py "OK")
                   (Json (JObj [(py "response", JStr (py " Hi. "))])))
     (Build_AssistRequest (py " hi ") grammar) []).2
  = Ok200 (py "Hi.")
  /\ exists status_code reason fields s,
       Response 200 (py "OK")
         (Json (JObj [(py "response", JStr (py " Hi. "))]))
       = Response status_code reason (Json (JObj fields))
       /\ ~ is_error_status status_code
       /\ dict_get fields (py "response") = Some (JStr s)
       /\ py "Hi." = strip s.
Proof.
  assert (Hok : (assist_report
                   (fun _ _ =>
                      Response 200 (py "OK")
                        (Json (JObj [(py "response", JStr (py " Hi. "))])))
                   (Build_AssistRequest (py " hi ") grammar) []).2
                = Ok200 (py "Hi.")) by (vm_compute; reflexivity).
  split; [exact Hok|].
  exact (handler_success_only _ _ _ _ Hok).
Defined.

(** The assisted text that the handler returns neither starts nor ends
    with whitespace. *)
Theorem assisted_text_trimmed
    (be : backend) (data : AssistRequest) (log : net_log) (t : str) :
  (assist_report be data log).2 = Ok200 t ->
  strip t = t
  /\ (forall c u, t = c :: u -> Py_UNICODE_ISSPACE c = false)
  /\ (forall c u, t = u ++ [c] -> Py_UNICODE_ISSPACE c = false).
Proof.
  intros Hok.
  destruct (assist_report_ok_inv be data log t Hok)
    as (_ & _ & _ & s & _ & _ & _ & ->).
  destruct (strip_trimmed s) as [Hl Hr].
  split_and!.
  - apply strip_idempotent.
  - intros c u Hcu. rewrite Hcu in Hl. now apply lstrip_cons in Hl.
  - intros c u Hcu. rewrite Hcu in Hr. unfold rstrip in Hr.
    rewrite rev_app_distr in Hr.
    change (rev [c] ++ rev u) with (c :: rev u) in Hr.
    apply (f_equal (@rev _)) in Hr.
    rewrite rev_involutive, rev_app_distr in Hr.
    change (rev [c] ++ rev u) with (c :: rev u) in Hr.
    now apply lstrip_cons in Hr.
Qed.

End HandlerProperties.

Section MoreHandlerProperties.
Import Backend.

Lemma assisted_text_trimmed_witness :
  (assist_report
     (fun _ _ => Response 200 (py "OK")
                   (Json (JObj [(py "response", JStr (py " Hi. "))])))
     (Build_AssistRequest (py " hi ") grammar) []).2
  = Ok200 (py "Hi.")
  /\ strip (py "Hi.") = py "Hi."
  /\ (forall c u, py "Hi." = c :: u -> Py_UNICODE_ISSPACE c = false)
  /\ (forall c u, py "Hi." = u ++ [c] -> Py_UNICODE_ISSPACE c = false).
Proof.
  assert (Hok : (assist_report
                   (fun _ _ =>
                      Response 200 (py "OK")
                        (Json (JObj [(py "response", JStr (py " Hi. "))])))
                   (Build_AssistRequest (py " hi ") grammar) []).2
                = Ok200 (py "Hi.")) by (vm_compute; reflexivity).
  split; [exact Hok|].
  exact (assisted_text_trimmed _ _ _ _ Hok).
Defined.

(** Whitespace before and after the text of a request changes nothing:
    the handler posts the same prompt and returns the same result as
    for the text without it. *)
Theorem surrounding_whitespace_ignored
    (be : backend) (m : mode) (l s r : str) (log : net_log) :
  forallb Py_UNICODE_ISSPACE l = true ->
  forallb Py_UNICODE_ISSPACE r = true ->
  assist_report be (Build_AssistRequest (l ++ s ++ r) m) log
  = assist_report be (Build_AssistRequest s m) log.
Proof.
  intros Hl Hr. unfold assist_report. simpl.
  now rewrite strip_surrounded by assumption.
Qed.

Lemma surrounding_whitespace_ignored_witness :
  forallb Py_UNICODE_ISSPACE (py "  ") = true
  /\ forallb Py_UNICODE_ISSPACE [10%N] = true
  /\ assist_report (fun _ _ => Raised (py "refused"))
       (Build_AssistRequest (py "  " ++ py "hi" ++ [10%N]) full) []
     = assist_report (fun _ _ => Raised (py "refused"))
         (Build_AssistRequest (py "hi") full) [].
Proof.
  split; [reflexivity|]. split; [reflexivity|].
  exact (surrounding_whitespace_ignored
           (fun _ _ => Raised (py "refused")) full
           (py "  ") (py "hi") [10%N] [] eq_refl eq_refl).
Defined.

End MoreHandlerProperties.

(** ** The client of [/assist] *)

Section ClientProperties.
Import Backend Client.

Lemma client_raise_for_status_error status_code reason :
  is_error_status status_code ->
  exists msg,
    Client.raise_for_status API_URL status_code reason
    = Some (HTTPError msg).
Proof.
  unfold is_error_status, Client.raise_for_status. intros Hc.
  destruct (Nat.leb_spec 400 status_code);
    destruct (Nat.ltb_spec status_code 500);
    destruct (Nat.leb_spec 500 status_code);
    destruct (Nat.ltb_spec status_code 600); simpl; eauto; lia.
Qed.

Lemma client_raise_for_status_None status_code reason :
  Client.raise_for_status API_URL status_code reason = None
  <-> ~ is_error_status status_code.
Proof.
  unfold is_error_status, Client.raise_for_status.
  destruct (Nat.leb_spec 400 status_code);
    destruct (Nat.ltb_spec status_code 500);
    destruct (Nat.leb_spec 500 status_code);
    destruct (Nat.ltb_spec status_code 600); simpl;
    split; try discriminate; try reflexivity; lia.
Qed.

(** [correct_text] returns a value exactly when the answer to its post
    is not a 4xx or 5xx and is a JSON object with the key
    ['assisted_text']; the value is what the key holds. *)
Theorem correct_text_returns_iff :
  forall (server : AssistRequest -> post_result) (input_text : str)
         (m : mode) (v : json),
    correct_text server input_text m = inr v
    <-> exists status_code reason fields,
          server (Build_AssistRequest input_text m)
          = Response status_code reason (Json (JObj fields))
          /\ ~ is_error_status status_code
          /\ dict_get fields (py "assisted_text") = Some v.
Proof.
  intros server input_text m v. unfold correct_text. split.
  - destruct (server (Build_AssistRequest input_text m))
      as [msg|code reason payload]; [discriminate|].
    destruct (Client.raise_for_status API_URL code reason) as [e|] eqn:Er;
      [discriminate|].
    apply client_raise_for_status_None in Er.
    destruct payload as [msg|w]; [discriminate|].
    destruct w as [| | | | |l|fields]; try discriminate.
    unfold subscript.
    destruct (dict_get fields (py "assisted_text")) as [x|] eqn:Eg;
      [|discriminate].
    intros [= <-]. eauto 10.
  - intros (code & reason & fields & -> & Hcode & Hget).
    apply (proj2 (client_raise_for_status_None code reason)) in Hcode.
    rewrite Hcode.
    unfold subscript. now rewrite Hget.
Qed.

(** When the gateway answers with a 4xx or 5xx, as it does for its 422
    and its 500, [correct_text] raises the [HTTPError] built from the
    status and the reason alone: the body, and with it the detail of
    the gateway, is never read. *)
Theorem correct_text_raises_on_error_status
    (server : AssistRequest -> post_result) (input_text : str) (m : mode)
    (status_code : nat) (reason : str) (payload : body) :
  server (Build_AssistRequest input_text m)
  = Response status_code reason payload ->
  is_error_status status_code ->
  exists msg,
    Client.raise_for_status API_URL status_code reason
    = Some (HTTPError msg)
    /\ correct_text server input_text m = inl (HTTPError msg).
Proof.
  intros Hs Hc.
  destruct (client_raise_for_status_error status_code reason Hc)
    as (msg & Hm).
  exists msg. split; [exact Hm|].
  unfold correct_text. now rewrite Hs, Hm.
Qed.

Lemma correct_text_raises_on_error_status_witness :
  (fun _ : AssistRequest =>
     Response 500 (py "Internal Server Error")
       (Json (JObj [(py "detail", JStr (py "LLM error: refused"))])))
    (Build_AssistRequest (py "hi") full)
  = Response 500 (py "Internal Server Error")
      (Json (JObj [(py "detail", JStr (py "LLM error: refused"))]))
  /\ is_error_status 500
  /\ exists msg,
       Client.raise_for_status API_URL 500 (py "Internal Server Error")
       = Some (HTTPError msg)
       /\ correct_text
            (fun _ =>
               Response 500 (py "Internal Server Error")
                 (Json (JObj [(py "detail",
                               JStr (py "LLM error: refused"))])))
            (py "hi") full
          = inl (HTTPError msg).
Proof.
  assert (Hc : is_error_status 500) by (unfold is_error_status; lia).
  split; [reflexivity|]. split; [exact Hc|].
  exact (correct_text_raises_on_error_status
           (fun _ =>
              Response 500 (py "Internal Server Error")
                (Json (JObj [(py "detail",
                              JStr (py "LLM error: refused"))])))
           (py "hi") full 500 (py "Internal Server Error")
           (Json (JObj [(py "detail", JStr (py "LLM error: refused"))]))
           eq_refl Hc).
Defined.

End ClientProperties.

(** ** Tokens are stable *)

Section TokenStability.
Import Tokenizer.

Lemma span_whole cls s :
  forallb cls s = true -> span cls s = (s, []).
Proof.
  induction s as [|c s IH]; [reflexivity|]. simpl.
  destruct (cls c); [|discriminate]. intros Hs. now rewrite IH.
Qed.

Lemma span_none cls c s :
  cls c = false -> span cls (c :: s) = ([], c :: s).
Proof. intros Hc. simpl. now rewrite Hc. Qed.

(** A non-empty run of one class is one token. *)
Lemma findall_single_run t :
  t <> [] -> all_space t = true \/ all_non_space t = true ->
  findall t = [t].
Proof.
  intros Hne Hcls. destruct t as [|c t]; [congruence|].
  unfold findall. cbn [length findall_from].
  unfold match_token, match_plus.
  destruct Hcls as [Hs|Hw].
  - unfold all_space in Hs.
    assert (Hc : non_space c = false).
    { simpl in Hs. apply andb_true_iff in Hs as [Hc _].
      unfold non_space. now rewrite Hc. }
    rewrite (span_none non_space c t Hc), (span_whole _ _ Hs).
    now destruct (length t).
  - unfold all_non_space in Hw. rewrite (span_whole _ _ Hw).
    now destruct (length t).
Qed.

(** Tokenizing a token gives the token back: every token that the
    tokenizer produces is a single token for the tokenizer. *)
Theorem tokens_are_stable :
  forall s : str, Forall (fun t => findall t = [t]) (findall s).
Proof.
  intros s. unfold findall at 2.
  eapply Forall_impl; [apply (findall_from_classes (length s) s); lia|].
  intros t [Hne Hcls]. now apply findall_single_run.
Qed.

End TokenStability.
